(** * SKA-Animations: the narration batch generator

    A shallow embedding of the four [generate_audio.py] scripts
    (the_trilogy, the_fridge_case, the_three_laws_of_intelligence and
    SKA_Animation/ska_animation_archive) and the properties of their
    batch loop.

    The scripts are straight-line Python: a module-level list
    [narrations] of (name, text) pairs, a module-level constant [VOICE],
    a coroutine [generate_audio] that asks edge-tts to synthesise one text
    and save it, and a coroutine [main] that (in three scripts out of four)
    creates the output directory and then awaits [generate_audio] for each
    pair in turn.  [asyncio.run(main())] drives a single coroutine, so every
    [await] is a plain sequencing point: the embedding is a state-and-error
    monad over an explicit world (file system, service call counter,
    journal of external effects, standard output). *)

From Stdlib Require Import Ascii.
From stdpp Require Import base tactics option list strings pretty gmap fin_maps.

Open Scope stdpp_scope.

(** ** The world the scripts run in *)

(** Bytes of an audio stream. *)
Definition Audio : Type := list Byte.byte.

(** What one [edge_tts.Communicate(text, voice, rate=..., pitch=...)]
    object carries. *)
Record Request : Type := Communicate {
  req_text  : string;
  req_voice : string;
  req_rate  : string;
  req_pitch : string
}.

(** Python exceptions that can leave the scripts. *)
Inductive Exn : Type :=
| FileNotFoundError (path : string)
| IsADirectoryError (path : string)
| FileExistsError (path : string)
| NotADirectoryError (path : string)
| ServiceError (detail : string).

(** What the speech service answers to one call: either the complete audio
    stream, or a failure after some (possibly empty) part of the stream. *)
Inductive Reply : Type :=
| Stream (audio : Audio)
| Broken (received : Audio) (detail : string).

(** The external speech service.  It is opaque to the scripts; its answer
    may depend on the request and on how many calls were made before (so
    two calls with the same text need not return the same audio). *)
Definition Service : Type := nat → Request → Reply.

(** External effects, in the order in which they happen. *)
Inductive Event : Type :=
| EvMakedirs (path : string)
| EvSave (req : Request) (path : string)
| EvWritten (path : string) (audio : Audio).

Record World : Type := mkWorld {
  dirs    : gset string;          (* existing directories, by path *)
  files   : gmap string Audio;    (* existing regular files, by path *)
  calls   : nat;                  (* service calls issued so far *)
  journal : list Event;           (* oldest first *)
  stdout  : list string           (* printed lines, oldest first *)
}.

(** ** State-and-error monad

    A raised exception keeps the world as it was when it was raised:
    Python undoes nothing. *)
Definition M (A : Type) : Type := World → (Exn + A) * World.

#[global] Instance M_ret : MRet M := λ A a w, (inr a, w).
#[global] Instance M_bind : MBind M := λ A B k m w,
  match m w with
  | (inl e, w') => (inl e, w')
  | (inr a, w') => k a w'
  end.

Definition raise {A : Type} (e : Exn) : M A := λ w, (inl e, w).

Definition modify (f : World → World) : M unit := λ w, (inr tt, f w).

Definition log (ev : Event) : M unit :=
  modify (λ w, mkWorld (dirs w) (files w) (calls w) (journal w ++ [ev]) (stdout w)).

(** [print(line)] *)
Definition print (line : string) : M unit :=
  modify (λ w, mkWorld (dirs w) (files w) (calls w) (journal w) (stdout w ++ [line])).

(** [for x in xs: body(x)] *)
Fixpoint for_each {A : Type} (xs : list A) (body : A → M unit) : M unit :=
  match xs with
  | [] => mret tt
  | x :: xs' => body x;; for_each xs' body
  end.

(** ** The file system calls the scripts rely on

    [os.makedirs] and [open] belong to Python, not to the repository.
    They are modelled as far as the scripts depend on them: paths are the
    strings the scripts build, a directory exists when its path is in
    [dirs], a regular file when its path is in [files]; there are no
    permissions, quotas or links.  Paths are looked up as written: nothing
    resolves [.], [..] or doubled separators, and no name is too long.
    What is said below about files on disk is therefore said for canonical
    paths (see [canonical], [well_formed_batch] and [canonical_world]),
    where a path string and a file are the same thing. *)

Definition slash : ascii := "/"%char.

Definition is_slash (c : ascii) : bool := bool_decide (c = slash).

Fixpoint drop_while {A : Type} (f : A → bool) (l : list A) : list A :=
  match l with
  | [] => []
  | x :: l' => if f x then drop_while f l' else l
  end.

(** [posixpath.dirname]: everything up to and including the last slash,
    then without its trailing slashes unless slashes are all there is. *)
Definition dirname (p : string) : string :=
  let head_rev :=
    drop_while (λ c, negb (is_slash c)) (reverse (String.list_ascii_of_string p)) in
  let stripped := drop_while is_slash head_rev in
  String.string_of_list_ascii
    (reverse (match stripped with [] => head_rev | _ :: _ => stripped end)).

(** The chain of directories above [p], nearest first. *)
Fixpoint parents_upto (fuel : nat) (p : string) : list string :=
  match fuel with
  | O => []
  | S fuel' =>
      let d := dirname p in
      if bool_decide (d = "" ∨ d = p) then [] else d :: parents_upto fuel' d
  end.

Definition parents (p : string) : list string :=
  parents_upto (String.length p) p.

(** [os.makedirs(path, exist_ok=exist_ok)]: create [path] and the missing
    directories above it.  A directory that is already there is accepted
    when [exist_ok] holds; a regular file in the way is an error. *)
Definition os_makedirs (path : string) (exist_ok : bool) : M unit :=
  log (EvMakedirs path);;
  ((λ w,
    if bool_decide (path ∈ dirs w) then
      if exist_ok then (inr tt, w) else (inl (FileExistsError path), w)
    else if bool_decide (path ∈ dom (files w)) then
      (inl (FileExistsError path), w)
    else if existsb (λ d, bool_decide (d ∈ dom (files w))) (parents path) then
      (inl (NotADirectoryError path), w)
    else
      (inr tt,
       mkWorld (dirs w ∪ {[path]} ∪ list_to_set (parents path))
               (files w) (calls w) (journal w) (stdout w))) : M unit).

(** [open(path, "wb")]: the directory of [path] has to exist and [path]
    must not be a directory; the file is created, or emptied when it is
    already there. *)
Definition open_wb (path : string) : M unit :=
  λ w,
    if bool_decide (path ∈ dirs w) then (inl (IsADirectoryError path), w)
    else if bool_decide (dirname path ∈ dirs w) then
      (inr tt,
       mkWorld (dirs w) (<[path := []]> (files w)) (calls w) (journal w)
               (stdout w))
    else (inl (FileNotFoundError path), w).

(** Replace the contents of the open file. *)
Definition write_all (path : string) (audio : Audio) : M unit :=
  modify (λ w, mkWorld (dirs w) (<[path := audio]> (files w)) (calls w)
                       (journal w) (stdout w)).

(** ** edge-tts

    [edge_tts.Communicate] is a third-party class.  The scripts use its
    constructor and its method [save], which opens the target file for
    writing and then writes to it the audio chunks streamed by the
    service. *)

Section Scripts.

(** The speech service behind edge-tts. *)
Variable tts : Service.

(** One round trip to the service: the call is counted, whatever its
    outcome. *)
Definition stream (req : Request) : M Reply :=
  λ w, (inr (tts (calls w) req),
        mkWorld (dirs w) (files w) (S (calls w)) (journal w) (stdout w)).

(** [communicate.save(audio_fname)]: open the file for writing, then
    stream the service's answer into it.  A failure of the service leaves
    the file with what had been received. *)
Definition save (communicate : Request) (audio_fname : string) : M unit :=
  log (EvSave communicate audio_fname);;
  open_wb audio_fname;;
  reply ← stream communicate;
  match reply with
  | Stream audio =>
      write_all audio_fname audio;;
      log (EvWritten audio_fname audio)
  | Broken received detail =>
      write_all audio_fname received;;
      raise (ServiceError detail)
  end.

(** ** What the scripts share *)

(** [VOICE = "en-US-AndrewNeural"], the same line in the four scripts. *)
Definition VOICE : string := "en-US-AndrewNeural".

(** [f"{output_dir}/{name}.mp3"] *)
Definition output_file (output_dir name : string) : string :=
  output_dir +:+ "/" +:+ name +:+ ".mp3".

(** [async def generate_audio(name, text, output_dir)], the same body in
    the four scripts. *)
Definition generate_audio (name text output_dir : string) : M unit :=
  let output_file := output_file output_dir name in
  let communicate := Communicate text VOICE "-5%" "+0Hz" in
  save communicate output_file;;
  print ("Generated: " +:+ output_file).

(** The loop of [main]:
    [for name, text in narrations: await generate_audio(name, text, output_dir)]. *)
Definition run_batch (narrations : list (string * string))
    (output_dir : string) : M unit :=
  for_each narrations (λ '(name, text), generate_audio name text output_dir).

(** [async def main()] of the_trilogy, the_fridge_case and
    the_three_laws_of_intelligence, with the module-level list and the
    hard-coded directory as parameters. *)
Definition main_with (narrations : list (string * string))
    (output_dir : string) : M unit :=
  os_makedirs output_dir true;;
  print ("Generating " +:+ pretty (length narrations) +:+ " audio files...");;
  print ("Using voice: " +:+ VOICE);;
  print ("Output directory: " +:+ output_dir);;
  print "";;
  run_batch narrations output_dir;;
  print "";;
  print "All audio files generated successfully!".

(** [async def main()] of ska_animation_archive: no directory is created,
    and [generate_audio] runs with its default [output_dir]. *)
Definition archive_main_with (narrations : list (string * string))
    (default_output_dir : string) : M unit :=
  print ("Generating " +:+ pretty (length narrations) +:+ " audio files...");;
  print ("Using voice: " +:+ VOICE);;
  print "";;
  run_batch narrations default_output_dir;;
  print "";;
  print "All audio files generated successfully!".

End Scripts.

(** ** the_trilogy/generate_audio.py *)

Module Trilogy.

Definition narrations : list (string * string) :=
  [
    ("01_intro",
     "The Structured Knowledge Accumulation framework introduces a unifying mathematical principle that connects information theory, physics, and geometry through the continuous evolution of knowledge.");
    ("02_part1_title",
     "Part One: The Foundation.");
    ("03_part1_content",
     "The first paper begins with the discovery that learning can be expressed as a law of entropy reduction. Each neural layer evolves autonomously, aligning its knowledge with decision probability through forward-only dynamics.");
    ("04_part1_equation",
     "This formulation establishes entropy as the central invariant of learning. Neural systems no longer require backpropagation; they self-organize by reducing uncertainty step by step.");
    ("05_part2_title",
     "Part Two: The Dynamics.");
    ("06_part2_content",
     "The second paper elevates SKA to the level of physical law. By interpreting the learning rate as a temporal differential, SKA reveals that the evolution of knowledge follows the principle of entropic least action.");
    ("07_part2_euler",
     "The Euler-Lagrange equation collapses to an identity zero equals zero, showing that the system's trajectory is intrinsically optimal. Learning is a natural law of motion in information space — not an optimization problem, but an entropic flow.");
    ("08_part3_title",
     "Part Three: The Geometry.");
    ("09_part3_content",
     "The third work extends SKA to continuous neural fields. By introducing neuron density and local entropy, the neural medium becomes a Riemannian information manifold.");
    ("10_part3_geodesic",
     "Knowledge propagates along geodesic trajectories that minimize information distance, revealing architectures that are not designed but discovered — the natural geometry of knowledge propagation.");
    ("11_insight",
     "Classical neural networks and SKA layered networks are approximations of this continuous formulation. Discrete architectures are merely discretizations of the deeper Riemannian geometry.");
    ("12_unified",
     "From entropy to dynamics to geometry, the SKA trilogy traces the full trajectory of intelligence. Learning is not the correction of error — it is the progressive organization of knowledge along geodesic paths.");
    ("13_unity",
     "The mathematical unity is complete. Entropy generates the Lagrangian, and the Lagrangian gives rise to the Riemannian metric. This closure mirrors the great symmetries of physics — from potential to motion to geometry.");
    ("14_final",
     "SKA unites Entropy, Lagrange's action, and Riemann's geometry into a single law of knowledge accumulation.")
  ].

Definition main (tts : Service) : M unit :=
  let output_dir := "/home/coder/project/manim_the_trilogy/audio" in
  os_makedirs output_dir true;;
  print ("Generating " +:+ pretty (length narrations) +:+ " audio files...");;
  print ("Using voice: " +:+ VOICE);;
  print ("Output directory: " +:+ output_dir);;
  print "";;
  for_each narrations
    (λ '(name, text), generate_audio tts name text output_dir);;
  print "";;
  print "All audio files generated successfully!".

(** The directory that [main] hard-codes. *)
Definition output_dir : string := "/home/coder/project/manim_the_trilogy/audio".

End Trilogy.

(** ** the_fridge_case/generate_audio.py *)

Module Fridge.

Definition narrations : list (string * string) :=
  [
    ("01_intro",
     "The Fridge Case. Why human intelligence is probabilistic, not deterministic.");
    ("02_scenario",
     "It's Wednesday. You're wondering whether to go to the supermarket. At first, the probability is zero point five — completely undecided.");
    ("03_undecided",
     "On the sigmoid curve, your decision sits exactly at the midpoint. No information has yet tipped the balance.");
    ("04_features",
     "You open the fridge. You observe what's inside — these are your input features.");
    ("05_knowledge",
     "You mentally weigh what your family needs until the end of the week, drawing on past experience This is your knowledge value, Z — the accumulation of everything you know.");
    ("06_sigmoid",
     "The sigmoid function maps your accumulated knowledge to a decision probability. D equals sigma of Z. If D exceeds zero point five, you go.");
    ("07_new_knowledge",
     "Then you remember: friends are coming for dinner tomorrow. New knowledge arrives, and the probability shifts upward.");
    ("08_decision_clears",
     "Knowledge accumulates. Uncertainty reduces. The decision becomes clear. This is entropy reduction in action.");
    ("09_why_matters",
     "This is not just a shopping story. It is the essence of how human intelligence works.");
    ("10_forward",
     "Forward-only learning: knowledge only accumulates. You don't unsee what's in the fridge.");
    ("11_probabilistic",
     "Probabilistic decisions: every new piece of knowledge shifts the probability of decision-making.");
    ("12_entropy",
     "Entropy reduction: intelligence is the process of reducing uncertainty until a choice becomes clear.");
    ("13_binary_vs_ska",
     "Most people explain decisions as binary: I went because the fridge was empty. But that skips the trajectory — the gradual shift of probability that is the real process of intelligence.");
    ("14_takeaway",
     "Every human decision, from the fridge to life-changing decisions, is probabilistic. SKA doesn't mimic this — it formalizes it.")
  ].

Definition main (tts : Service) : M unit :=
  let output_dir := "/home/coder/project/manim_fridge/audio" in
  os_makedirs output_dir true;;
  print ("Generating " +:+ pretty (length narrations) +:+ " audio files...");;
  print ("Using voice: " +:+ VOICE);;
  print ("Output directory: " +:+ output_dir);;
  print "";;
  for_each narrations
    (λ '(name, text), generate_audio tts name text output_dir);;
  print "";;
  print "All audio files generated successfully!".

(** The directory that [main] hard-codes. *)
Definition output_dir : string := "/home/coder/project/manim_fridge/audio".

End Fridge.

(** ** the_three_laws_of_intelligence/generate_audio.py *)

Module ThreeLaws.

Definition narrations : list (string * string) :=
  [
    ("01_intro",
     "What if intelligence could be described by just three fundamental laws?");
    ("02_law1_principle",
     "Law One: Probabilistic Decision-Making. Intelligence is the capacity to make decisions under uncertainty.");
    ("03_law1_sigmoid",
     "The sigmoid function transforms accumulated knowledge into decision probability. As knowledge z increases, the decision D moves from uncertainty toward confidence.");
    ("04_law1_meaning",
     "This equation bridges cognition and mathematics. Intelligence is not deterministic, but probabilistic.");
    ("05_law2_principle",
     "Law Two: Knowledge Accumulation. Knowledge grows forward-only by reducing uncertainty through structured accumulation.");
    ("06_law2_formula",
     "The entropy H is measured as an integral over the knowledge trajectory z and the change in decision probability.");
    ("07_law2_entropy",
     "As knowledge increases, entropy decreases. The system becomes more structured and predictable. Learning is entropy minimization, not gradient descent.");
    ("08_law3_principle",
     "Law Three: Entropic Least Action. Among all possible learning paths, intelligence follows the path of least action.");
    ("09_law3_paths",
     "Consider multiple possible paths through knowledge space. Only one path minimizes entropy — the optimal trajectory.");
    ("10_law3_physics",
     "This law brings physics into intelligence. The Euler-Lagrange equation governs how cognition evolves — minimizing entropy rather than energy. No backpropagation, just natural forward-only optimization.");
    ("11_unified",
     "Together, these three laws form a unified framework. Probabilistic decisions, knowledge accumulation, and entropic least action.");
    ("12_paradigm",
     "This represents a paradigm shift. From 'AI works because it learns patterns' to 'AI works because intelligence is the physical reduction of entropy along a probabilistic path.'");
    ("13_final",
     "Intelligence isn't a mystery. It's a law-governed natural process.")
  ].

Definition main (tts : Service) : M unit :=
  let output_dir := "/home/coder/project/manim_the_three_laws_of_intelligence/audio" in
  os_makedirs output_dir true;;
  print ("Generating " +:+ pretty (length narrations) +:+ " audio files...");;
  print ("Using voice: " +:+ VOICE);;
  print ("Output directory: " +:+ output_dir);;
  print "";;
  for_each narrations
    (λ '(name, text), generate_audio tts name text output_dir);;
  print "";;
  print "All audio files generated successfully!".

(** The directory that [main] hard-codes. *)
Definition output_dir : string := "/home/coder/project/manim_the_three_laws_of_intelligence/audio".

End ThreeLaws.

(** ** SKA_Animation/ska_animation_archive/generate_audio.py *)

Module Archive.

Definition narrations : list (string * string) :=
  [
    ("01_intro_classical",
     "In classical information theory, entropy measures global uncertainty over an entire distribution.");
    ("02_intro_ska",
     "SKA takes a different approach: entropy is defined locally, at each point in the neural medium.");
    ("03_volume_element",
     "Consider a volume element at position r, containing n of r neurons.");
    ("04_tensors",
     "We define the knowledge tensor z of r, and the decision probability tensor D of r.");
    ("05_learning_step",
     "During a learning step, decisions shift by delta D.");
    ("06_dot_product",
     "The local entropy density is their dot product.");
    ("07_density_intro",
     "Neuron density needs no explicit variable.");
    ("08_density_sum",
     "The dot product sums over n of r terms automatically.");
    ("09_density_implicit",
     "Denser regions produce proportionally smaller entropy. Density is implicit in the structure itself.");
    ("10_universality",
     "The identical equation, in any spatial dimension. One formula. Any geometry.");
    ("11_hubs",
     "High-density regions have greater capacity to reduce entropy, becoming natural hubs for knowledge accumulation.");
    ("12_gradient",
     "The gradient of h guides information flow.");
    ("13_self_regulates",
     "The system self-regulates, by local capacity.");
    ("14_finale",
     "Entropy, reimagined. Not as a global summary, but as a living, breathing field.")
  ].

(** The default of [generate_audio]'s parameter [output_dir]. *)
Definition output_dir : string := "/home/coder/manim/audio".

(** [generate_audio(name, text)]: the script's [generate_audio] with
    [output_dir] left to its default. *)
Definition generate_audio (tts : Service) (name text : string) : M unit :=
  generate_audio tts name text output_dir.

Definition main (tts : Service) : M unit :=
  print ("Generating " +:+ pretty (length narrations) +:+ " audio files...");;
  print ("Using voice: " +:+ VOICE);;
  print "";;
  for_each narrations (λ '(name, text), generate_audio tts name text);;
  print "";;
  print "All audio files generated successfully!".

End Archive.

(** ** Vocabulary of the statements *)

(** The request [generate_audio] builds for a text. *)
Definition request (text : string) : Request :=
  Communicate text VOICE "-5%" "+0Hz".

(** The [save] call [generate_audio] makes for a segment. *)
Definition call_of (output_dir : string) (seg : string * string)
    : Request * string :=
  (request seg.2, output_file output_dir seg.1).

(** The output path derived from a segment. *)
Definition path_of (output_dir : string) (seg : string * string) : string :=
  output_file output_dir seg.1.

(** The [save] calls recorded in a journal, in order. *)
Definition saves (evs : list Event) : list (Request * string) :=
  omap (λ ev, match ev with EvSave req p => Some (req, p) | _ => None end) evs.

(** The paths of the files completely written, in order. *)
Definition written (evs : list Event) : list string :=
  omap (λ ev, match ev with EvWritten p _ => Some p | _ => None end) evs.

(** The directories created, in order. *)
Definition made (evs : list Event) : list string :=
  omap (λ ev, match ev with EvMakedirs p => Some p | _ => None end) evs.

(** A [save] call made with the fixed voice configuration. *)
Definition fixed_voice (ev : Event) : Prop :=
  match ev with
  | EvSave req _ =>
      req_voice req = "en-US-AndrewNeural"
      ∧ req_rate req = "-5%" ∧ req_pitch req = "+0Hz"
  | _ => True
  end.

(** The journal of a batch in which every segment succeeds, segment
    [i] receiving the audio [audios !! i]. *)
Fixpoint batch_journal (output_dir : string) (segs : list (string * string))
    (audios : list Audio) : list Event :=
  match segs, audios with
  | seg :: segs', a :: audios' =>
      EvSave (request seg.2) (path_of output_dir seg)
      :: EvWritten (path_of output_dir seg) a
      :: batch_journal output_dir segs' audios'
  | _, _ => []
  end.

(** The files after such a batch: each segment's audio stored under its
    path, in list order. *)
Fixpoint store_all (output_dir : string) (segs : list (string * string))
    (audios : list Audio) (m : gmap string Audio) : gmap string Audio :=
  match segs, audios with
  | seg :: segs', a :: audios' =>
      store_all output_dir segs' audios' (<[path_of output_dir seg := a]> m)
  | _, _ => m
  end.

(** The first phase of [main_with]: directory preparation and the
    announcement lines. *)
Definition prepare (n : nat) (output_dir : string) : M unit :=
  os_makedirs output_dir true;;
  print ("Generating " +:+ pretty n +:+ " audio files...");;
  print ("Using voice: " +:+ VOICE);;
  print ("Output directory: " +:+ output_dir);;
  print "".

(** A run of a narration script, whichever of the two shapes of [main] it
    has: started in [w], it ends in [w'] with outcome [r]. *)
Definition runs_to (tts : Service) (segs : list (string * string))
    (output_dir : string) (w : World) (r : Exn + unit) (w' : World) : Prop :=
  main_with tts segs output_dir w = (r, w')
  ∨ archive_main_with tts segs output_dir w = (r, w').

(** Whether a string has a path separator in it. *)
Definition has_separator (s : string) : bool :=
  existsb is_slash (String.list_ascii_of_string s).

(** [path] names a direct entry of [output_dir]: the directory, one
    slash, and a file name without any separator. *)
Definition flat_entry (output_dir path : string) : Prop :=
  ∃ file_name, has_separator file_name = false
               ∧ path = output_dir +:+ "/" +:+ file_name.

(** Whether a string is made of path separators only. *)
Definition all_separators (s : string) : bool :=
  forallb is_slash (String.list_ascii_of_string s).

(** The consequence drawn from the unchecked concatenation, read for
    every identifier: one with a path separator in it designates a file
    whose directory is not the output directory. *)
Definition separator_leaves_directory : Prop :=
  ∀ output_dir name,
    has_separator name = true →
    dirname (output_file output_dir name) ≠ output_dir.


(** ** Small worlds and services to run the scripts in *)

Definition fresh_world : World := mkWorld ∅ ∅ 0 [] [].

(** A machine on which [/out] exists. *)
Definition out_world : World := mkWorld {["/out"]} ∅ 0 [] [].

(** A service whose [n]-th answer is the one byte [n]. *)
Definition counting_tts : Service :=
  λ n _, Stream [default Byte.x00 (Byte.of_nat n)].

(** A service that breaks on its call number [k] (counting from 0). *)
Definition failing_at (k : nat) : Service :=
  λ n req, if bool_decide (n = k) then Broken [] "503" else counting_tts n req.

(** A machine on which the archive script's directory exists. *)
Definition archive_world : World := mkWorld {[Archive.output_dir]} ∅ 0 [] [].

Definition three_segments : list (string * string) :=
  [("a", "first"); ("b", "second"); ("c", "third")].


(** ** The scenes that play the narration

    Each animation script has one narrated [Scene] class whose [construct]
    calls its section methods one after the other; a section adds its
    narration clips with [self.add_sound(path)], always as a statement of
    the method body itself, never under a branch or in a loop.  Of a
    section only these calls are kept, in program order: the rest is
    drawing and waiting, done by manim on floating-point values. *)

(** *** class [SKATrilogyVideo] of the_trilogy/ska_trilogy_animation.py *)

Module TrilogyVideo.

Definition intro_section : list string :=
  ["/home/coder/project/manim_the_trilogy/audio/01_intro.mp3"].

Definition part1_foundation : list string :=
  ["/home/coder/project/manim_the_trilogy/audio/02_part1_title.mp3";
   "/home/coder/project/manim_the_trilogy/audio/03_part1_content.mp3";
   "/home/coder/project/manim_the_trilogy/audio/04_part1_equation.mp3"].

Definition part2_dynamics : list string :=
  ["/home/coder/project/manim_the_trilogy/audio/05_part2_title.mp3";
   "/home/coder/project/manim_the_trilogy/audio/06_part2_content.mp3";
   "/home/coder/project/manim_the_trilogy/audio/07_part2_euler.mp3"].

Definition part3_geometry : list string :=
  ["/home/coder/project/manim_the_trilogy/audio/08_part3_title.mp3";
   "/home/coder/project/manim_the_trilogy/audio/09_part3_content.mp3";
   "/home/coder/project/manim_the_trilogy/audio/10_part3_geodesic.mp3"].

Definition key_insight : list string :=
  ["/home/coder/project/manim_the_trilogy/audio/11_insight.mp3"].

Definition unified_vision : list string :=
  ["/home/coder/project/manim_the_trilogy/audio/12_unified.mp3"].

Definition mathematical_unity : list string :=
  ["/home/coder/project/manim_the_trilogy/audio/13_unity.mp3";
   "/home/coder/project/manim_the_trilogy/audio/14_final.mp3"].

Definition end_card : list string :=
  [].

Definition construct : list string :=
  intro_section
  ++ part1_foundation
  ++ part2_dynamics
  ++ part3_geometry
  ++ key_insight
  ++ unified_vision
  ++ mathematical_unity
  ++ end_card.

End TrilogyVideo.

(** *** class [FridgeCaseVideo] of the_fridge_case/fridge_animation.py *)

Module FridgeVideo.

Definition AUDIO_DIR : string := "/home/coder/project/manim_fridge/audio".

Definition intro_section : list string :=
  [AUDIO_DIR +:+ "/01_intro.mp3"].

Definition undecided_state_section : list string :=
  [AUDIO_DIR +:+ "/02_scenario.mp3";
   AUDIO_DIR +:+ "/03_undecided.mp3"].

Definition input_features_section : list string :=
  [AUDIO_DIR +:+ "/04_features.mp3";
   AUDIO_DIR +:+ "/05_knowledge.mp3"].

Definition sigmoid_decision_section : list string :=
  [AUDIO_DIR +:+ "/06_sigmoid.mp3"].

Definition knowledge_accumulates_section : list string :=
  [AUDIO_DIR +:+ "/07_new_knowledge.mp3";
   AUDIO_DIR +:+ "/08_decision_clears.mp3"].

Definition why_it_matters_section : list string :=
  [AUDIO_DIR +:+ "/09_why_matters.mp3";
   AUDIO_DIR +:+ "/10_forward.mp3";
   AUDIO_DIR +:+ "/11_probabilistic.mp3";
   AUDIO_DIR +:+ "/12_entropy.mp3"].

Definition binary_vs_ska_section : list string :=
  [AUDIO_DIR +:+ "/13_binary_vs_ska.mp3"].

Definition takeaway_section : list string :=
  [AUDIO_DIR +:+ "/14_takeaway.mp3"].

Definition end_card : list string :=
  [].

Definition construct : list string :=
  intro_section
  ++ undecided_state_section
  ++ input_features_section
  ++ sigmoid_decision_section
  ++ knowledge_accumulates_section
  ++ why_it_matters_section
  ++ binary_vs_ska_section
  ++ takeaway_section
  ++ end_card.

End FridgeVideo.

(** *** class [ThreeLawsVideo] of SKA_Animation/manim_the_three_laws_of_intelligence/three_laws_animation.py *)

Module ThreeLawsVideo.

Definition intro_section : list string :=
  ["/home/coder/project/manim_the_three_laws_of_intelligence/audio/01_intro.mp3"].

Definition law1_probabilistic_decision : list string :=
  ["/home/coder/project/manim_the_three_laws_of_intelligence/audio/02_law1_principle.mp3";
   "/home/coder/project/manim_the_three_laws_of_intelligence/audio/03_law1_sigmoid.mp3";
   "/home/coder/project/manim_the_three_laws_of_intelligence/audio/04_law1_meaning.mp3"].

Definition law2_knowledge_accumulation : list string :=
  ["/home/coder/project/manim_the_three_laws_of_intelligence/audio/05_law2_principle.mp3";
   "/home/coder/project/manim_the_three_laws_of_intelligence/audio/06_law2_formula.mp3";
   "/home/coder/project/manim_the_three_laws_of_intelligence/audio/07_law2_entropy.mp3"].

Definition law3_entropic_least_action : list string :=
  ["/home/coder/project/manim_the_three_laws_of_intelligence/audio/08_law3_principle.mp3";
   "/home/coder/project/manim_the_three_laws_of_intelligence/audio/09_law3_paths.mp3";
   "/home/coder/project/manim_the_three_laws_of_intelligence/audio/10_law3_physics.mp3"].

Definition unified_section : list string :=
  ["/home/coder/project/manim_the_three_laws_of_intelligence/audio/11_unified.mp3";
   "/home/coder/project/manim_the_three_laws_of_intelligence/audio/12_paradigm.mp3";
   "/home/coder/project/manim_the_three_laws_of_intelligence/audio/13_final.mp3"].

Definition end_card : list string :=
  [].

Definition construct : list string :=
  intro_section
  ++ law1_probabilistic_decision
  ++ law2_knowledge_accumulation
  ++ law3_entropic_least_action
  ++ unified_section
  ++ end_card.

End ThreeLawsVideo.

(** *** class [SKAEntropyVideo] of SKA_Animation/ska_animation_archive/ska_entropy_animation.py *)

Module ArchiveVideo.

Definition intro_section : list string :=
  ["/home/coder/manim/audio/01_intro_classical.mp3";
   "/home/coder/manim/audio/02_intro_ska.mp3"].

Definition volume_element_section : list string :=
  ["/home/coder/manim/audio/03_volume_element.mp3";
   "/home/coder/manim/audio/04_tensors.mp3";
   "/home/coder/manim/audio/05_learning_step.mp3";
   "/home/coder/manim/audio/06_dot_product.mp3"].

Definition density_encoding_section : list string :=
  ["/home/coder/manim/audio/07_density_intro.mp3";
   "/home/coder/manim/audio/08_density_sum.mp3";
   "/home/coder/manim/audio/09_density_implicit.mp3"].

Definition universality_section : list string :=
  ["/home/coder/manim/audio/10_universality.mp3"].

Definition finale_section : list string :=
  ["/home/coder/manim/audio/11_hubs.mp3";
   "/home/coder/manim/audio/12_gradient.mp3";
   "/home/coder/manim/audio/13_self_regulates.mp3";
   "/home/coder/manim/audio/14_finale.mp3"].

Definition end_card : list string :=
  [].

Definition construct : list string :=
  intro_section
  ++ volume_element_section
  ++ density_encoding_section
  ++ universality_section
  ++ finale_section
  ++ end_card.

End ArchiveVideo.

(** ** Vocabulary of the further properties *)

(** The line [generate_audio] prints for a finished file. *)
Definition progress_line (path : string) : string := "Generated: " +:+ path.

(** The last line [main] prints. *)
Definition success_line : string := "All audio files generated successfully!".

(** What [main] prints before its loop, and after it. *)
Definition header (n : nat) (output_dir : string) : list string :=
  ["Generating " +:+ pretty n +:+ " audio files...";
   "Using voice: " +:+ VOICE;
   "Output directory: " +:+ output_dir;
   ""].

Definition archive_header (n : nat) : list string :=
  ["Generating " +:+ pretty n +:+ " audio files...";
   "Using voice: " +:+ VOICE;
   ""].

Definition footer : list string := [""; success_line].



(** A directory path that is not empty and does not end in a separator. *)
Definition tidy (output_dir : string) : bool :=
  match reverse (String.list_ascii_of_string output_dir) with
  | [] => false
  | c :: _ => negb (is_slash c)
  end.

(** A service whose answer does not depend on how many calls came
    before. *)
Definition stateless (tts : Service) : Prop :=
  ∀ n m req, tts n req = tts m req.

(** A service that answers by the length of the text. *)
Definition length_tts : Service :=
  λ _ req, Stream [default Byte.x00 (Byte.of_nat (String.length (req_text req)))].


(** ** Where the string-keyed world is the disk

    The world keys directories and files by path strings and resolves
    nothing: [/out//a.mp3], [/out/./a.mp3] and [/out/a.mp3] are three keys
    but one file on disk, and [open] rejects names a real file system
    cannot hold.  The string-keyed world agrees with a POSIX file system
    (case-sensitive names, no links) on canonical paths: absolute, single
    separators, no [.] or [..] component, no NUL, components of at most
    [NAME_MAX] bytes and fewer than [PATH_MAX] bytes in all.  Two different
    canonical paths are two different files.  Statements about files on
    disk are made for such paths. *)

Definition NAME_MAX : nat := 255.
Definition PATH_MAX : nat := 4096.

Definition nul : ascii := "000"%char.

(** Whether a string has a NUL byte in it. *)
Definition has_nul (s : string) : bool :=
  existsb (λ c, bool_decide (c = nul)) (String.list_ascii_of_string s).

(** [s.split("/")] *)
Fixpoint split_slash (s : string) : list string :=
  match s with
  | EmptyString => [""]
  | String c s' =>
      if is_slash c then "" :: split_slash s'
      else match split_slash s' with
           | [] => [String c ""]
           | part :: parts => String c part :: parts
           end
  end.

(** A name a directory can hold, other than [.] and [..]. *)
Definition valid_component (c : string) : bool :=
  negb (bool_decide (c = "")) && negb (bool_decide (c = "."))
  && negb (bool_decide (c = "..")) && negb (has_separator c)
  && negb (has_nul c) && bool_decide (String.length c ≤ NAME_MAX).

(** A relative path [c1/c2/.../cn] of valid components. *)
Definition valid_relative (p : string) : bool :=
  tidy p && forallb valid_component (split_slash p).

(** A canonical absolute path: the root, or [/c1/c2/.../cn] with valid
    components, short enough. *)
Definition canonical (p : string) : bool :=
  bool_decide (p = "/")
  || (tidy p && bool_decide (String.length p < PATH_MAX)
      && match split_slash p with
         | "" :: c :: cs => forallb valid_component (c :: cs)
         | _ => false
         end).

(** An identifier that, followed by [.mp3], is one file name. *)
Definition plain_identifier (name : string) : bool :=
  negb (has_separator name) && negb (has_nul name)
  && bool_decide (String.length name + 4 ≤ NAME_MAX).

(** A batch whose output paths are canonical: a canonical directory other
    than the root, plain identifiers, and paths short enough. *)
Definition well_formed_batch (output_dir : string)
    (segs : list (string * string)) : bool :=
  tidy output_dir && canonical output_dir
  && forallb (λ seg, plain_identifier seg.1
                     && bool_decide (String.length (output_file output_dir seg.1)
                                     < PATH_MAX)) segs.

(** A world that is a disk: every directory and file has a canonical
    path, and no path is both. *)
Definition canonical_world (w : World) : Prop :=
  Forall (λ p, canonical p = true) (elements (dirs w))
  ∧ Forall (λ p, canonical p = true ∧ p ∉ dirs w) (elements (dom (files w))).



(** * Properties *)

(** Each script's [main] is the shared shape at its own list and directory. *)
Lemma trilogy_main_shape tts :
  Trilogy.main tts = main_with tts Trilogy.narrations Trilogy.output_dir.
Proof. reflexivity. Qed.

Lemma fridge_main_shape tts :
  Fridge.main tts = main_with tts Fridge.narrations Fridge.output_dir.
Proof. reflexivity. Qed.

Lemma three_laws_main_shape tts :
  ThreeLaws.main tts = main_with tts ThreeLaws.narrations ThreeLaws.output_dir.
Proof. reflexivity. Qed.

Lemma archive_main_shape tts :
  Archive.main tts = archive_main_with tts Archive.narrations Archive.output_dir.
Proof. reflexivity. Qed.

(** ** The monad, run on a world *)

Lemma bind_run {A B : Type} (m : M A) (k : A → M B) (w : World) :
  (m ≫= k) w =
  match m w with
  | (inl e, w') => (inl e, w')
  | (inr a, w') => k a w'
  end.
Proof. reflexivity. Qed.

Lemma bind_assoc_run {A B C : Type} (m : M A) (k : A → M B) (h : B → M C) w :
  ((m ≫= k) ≫= h) w = (m ≫= (λ a, k a ≫= h)) w.
Proof. rewrite !bind_run. destruct (m w) as [[e|a] w1]; reflexivity. Qed.

Lemma for_each_app {A : Type} (xs ys : list A) (body : A → M unit) w :
  for_each (xs ++ ys) body w = (for_each xs body;; for_each ys body) w.
Proof.
  revert w. induction xs as [|x xs IH]; intros w; simpl.
  - reflexivity.
  - rewrite !bind_run. destruct (body x w) as [[e|[]] w1]; [reflexivity|].
    rewrite IH. reflexivity.
Qed.

(** Run a monadic term on its world, as far as it goes. *)
Ltac run_monad :=
  repeat (progress (rewrite ?bind_run; cbn -[output_file dirname parents pretty])).

(** ** One segment *)

Section Batch.

Variable tts : Service.

(** What [generate_audio] does, case by case. *)
Lemma generate_audio_run name text output_dir w :
  generate_audio tts name text output_dir w =
  let p := output_file output_dir name in
  let req := request text in
  let called := journal w ++ [EvSave req p] in
  if bool_decide (p ∈ dirs w) then
    (inl (IsADirectoryError p),
     mkWorld (dirs w) (files w) (calls w) called (stdout w))
  else if bool_decide (dirname p ∈ dirs w) then
    match tts (calls w) req with
    | Stream audio =>
        (inr tt,
         mkWorld (dirs w) (<[p := audio]> (files w)) (S (calls w))
                 (called ++ [EvWritten p audio])
                 (stdout w ++ ["Generated: " +:+ p]))
    | Broken received detail =>
        (inl (ServiceError detail),
         mkWorld (dirs w) (<[p := received]> (files w)) (S (calls w))
                 called (stdout w))
    end
  else
    (inl (FileNotFoundError p),
     mkWorld (dirs w) (files w) (calls w) called (stdout w)).
Proof.
  unfold generate_audio, save, open_wb, stream, write_all, log, print, modify,
    raise, request.
  run_monad. repeat case_bool_decide; run_monad; try reflexivity.
  destruct (tts (calls w) _); run_monad; rewrite insert_insert_eq; reflexivity.
Qed.

Lemma run_batch_nil output_dir w : run_batch tts [] output_dir w = (inr tt, w).
Proof. reflexivity. Qed.

Lemma run_batch_cons name text segs output_dir w :
  run_batch tts ((name, text) :: segs) output_dir w =
  match generate_audio tts name text output_dir w with
  | (inl e, w1) => (inl e, w1)
  | (inr _, w1) => run_batch tts segs output_dir w1
  end.
Proof. reflexivity. Qed.

Lemma run_batch_app pre post output_dir w :
  run_batch tts (pre ++ post) output_dir w =
  match run_batch tts pre output_dir w with
  | (inl e, w1) => (inl e, w1)
  | (inr _, w1) => run_batch tts post output_dir w1
  end.
Proof. unfold run_batch. rewrite for_each_app, bind_run. reflexivity. Qed.

(** A segment that succeeds: the service answered with a whole stream,
    which is now the content of the segment's file. *)
Lemma generate_audio_ok name text output_dir w w' :
  generate_audio tts name text output_dir w = (inr tt, w') →
  ∃ audio,
    tts (calls w) (request text) = Stream audio
    ∧ w' = mkWorld (dirs w)
             (<[output_file output_dir name := audio]> (files w))
             (S (calls w))
             (journal w ++ [EvSave (request text) (output_file output_dir name);
                            EvWritten (output_file output_dir name) audio])
             (stdout w ++ ["Generated: " +:+ output_file output_dir name]).
Proof.
  rewrite generate_audio_run. cbn zeta.
  repeat case_bool_decide; try discriminate.
  destruct (tts _ _) as [audio|] eqn:E; try discriminate.
  intros [= <-]. exists audio. split; [reflexivity|].
  rewrite <- app_assoc. reflexivity.
Qed.

(** A segment that fails: the call was made once, nothing was printed,
    no directory changed, and no other file was touched. *)
Lemma generate_audio_fail name text output_dir w e w' :
  generate_audio tts name text output_dir w = (inl e, w') →
  dirs w' = dirs w
  ∧ journal w' = journal w ++ [EvSave (request text) (output_file output_dir name)]
  ∧ stdout w' = stdout w
  ∧ calls w' ≤ S (calls w)
  ∧ dom (files w) ⊆ dom (files w')
  ∧ (∀ q, q ≠ output_file output_dir name → files w' !! q = files w !! q).
Proof.
  rewrite generate_audio_run. cbn zeta.
  repeat case_bool_decide; try destruct (tts _ _) as [audio|received detail];
    try discriminate; intros [= <- <-]; cbn;
    repeat split; try lia; try set_solver.
  intros q Hq. by rewrite lookup_insert_ne.
Qed.

(** ** The batch loop *)

(** A batch that returns normally: every segment was synthesised, in
    order, the [i]-th by the [i]-th call made to the service. *)
Lemma run_batch_ok segs output_dir w w' :
  run_batch tts segs output_dir w = (inr tt, w') →
  ∃ audios,
    length audios = length segs
    ∧ (∀ i seg a, segs !! i = Some seg → audios !! i = Some a →
         tts (calls w + i) (request seg.2) = Stream a)
    ∧ w' = mkWorld (dirs w)
             (store_all output_dir segs audios (files w))
             (calls w + length segs)
             (journal w ++ batch_journal output_dir segs audios)
             (stdout w
              ++ map (λ seg, "Generated: " +:+ path_of output_dir seg) segs).
Proof.
  revert w. induction segs as [|[name text] segs IH]; intros w.
  - rewrite run_batch_nil. intros [= <-]. exists []. split; [done|].
    split; [intros i seg a Hi; by rewrite lookup_nil in Hi|].
    destruct w; cbn. rewrite !app_nil_r, Nat.add_0_r. reflexivity.
  - rewrite run_batch_cons.
    destruct (generate_audio tts name text output_dir w) as [[e|[]] w1] eqn:Hgen;
      [discriminate|].
    apply generate_audio_ok in Hgen as (a & Ha & ->).
    intros Hrest. apply IH in Hrest as (audios & Hlen & Hcalls & ->).
    exists (a :: audios). cbn in *. split; [by rewrite Hlen|]. split.
    + intros [|i] seg b Hseg Hb; cbn in *.
      * injection Hseg as <-. injection Hb as <-.
        by rewrite Nat.add_0_r.
      * rewrite <- Nat.add_succ_comm. by apply Hcalls.
    + unfold path_of at 1 2 3; cbn. rewrite <- !app_assoc. cbn.
      f_equal. lia.
Qed.

End Batch.

(** ** Paths *)

Lemma chars_append (s t : string) :
  String.list_ascii_of_string (s +:+ t)
  = String.list_ascii_of_string s ++ String.list_ascii_of_string t.
Proof.
  induction s as [|c s IH]; [reflexivity|].
  change (String c s +:+ t) with (String c (s +:+ t)).
  cbn [String.list_ascii_of_string]. by rewrite IH.
Qed.

Lemma chars_inj (s t : string) :
  String.list_ascii_of_string s = String.list_ascii_of_string t → s = t.
Proof.
  intros H. rewrite <- (String.string_of_list_ascii_of_string s),
    <- (String.string_of_list_ascii_of_string t). by rewrite H.
Qed.

Lemma append_inj_r (s1 s2 t : string) : s1 +:+ t = s2 +:+ t → s1 = s2.
Proof.
  intros H. apply chars_inj. apply (f_equal String.list_ascii_of_string) in H.
  rewrite !chars_append in H. by apply app_inv_tail in H.
Qed.

(** Distinct identifiers give distinct output files, and conversely. *)
Lemma output_file_inj output_dir name1 name2 :
  output_file output_dir name1 = output_file output_dir name2 → name1 = name2.
Proof.
  unfold output_file. intros H.
  apply (inj (String.app output_dir)) in H.
  apply (inj (String.app "/")) in H.
  by apply append_inj_r in H.
Qed.

Lemma has_separator_append (s t : string) :
  has_separator (s +:+ t) = has_separator s || has_separator t.
Proof. unfold has_separator. by rewrite chars_append, existsb_app. Qed.

(** *** Directory names *)

Lemma drop_while_all {A : Type} (f : A → bool) (l k : list A) :
  forallb f l = true → drop_while f (l ++ k) = drop_while f k.
Proof.
  induction l as [|x l IH]; cbn; [done|].
  destruct (f x); cbn; [exact IH|discriminate].
Qed.

Lemma drop_while_stops {A : Type} (f : A → bool) (l k : list A) :
  forallb f l = false →
  drop_while f (l ++ k) = drop_while f l ++ k ∧ drop_while f l ≠ [].
Proof.
  induction l as [|x l IH]; cbn; [discriminate|].
  destruct (f x); cbn; [exact IH|done].
Qed.

Lemma forallb_reverse {A : Type} (f : A → bool) (l : list A) :
  forallb f (reverse l) = forallb f l.
Proof.
  induction l as [|x l IH]; [done|].
  rewrite reverse_cons, forallb_app, IH. cbn.
  rewrite andb_true_r. apply andb_comm.
Qed.

Lemma no_separator_forallb (s : string) :
  has_separator s = false →
  forallb (λ c, negb (is_slash c)) (String.list_ascii_of_string s) = true.
Proof.
  unfold has_separator. induction (String.list_ascii_of_string s) as [|c l IH];
    cbn; [done|].
  destruct (is_slash c); cbn; [discriminate|exact IH].
Qed.

(** The characters of the directory name of [front/file], where [file] has
    no separator and [front] is not made of separators only: those of
    [front] without its trailing separators. *)
Lemma dirname_of_entry (front file : string) :
  has_separator file = false →
  forallb is_slash (String.list_ascii_of_string front) = false →
  String.list_ascii_of_string (dirname (front +:+ "/" +:+ file))
  = reverse (drop_while is_slash (reverse (String.list_ascii_of_string front))).
Proof.
  intros Hfile Hfront. unfold dirname.
  rewrite String.list_ascii_of_string_of_list_ascii, !chars_append.
  change (String.list_ascii_of_string "/") with [slash].
  rewrite !reverse_app, <- app_assoc.
  rewrite drop_while_all
    by (rewrite forallb_reverse; by apply no_separator_forallb).
  change (reverse [slash] ++ ?l) with (slash :: l).
  change (drop_while (λ c, negb (is_slash c)) (slash :: ?l)) with (slash :: l).
  change (drop_while is_slash (slash :: ?l)) with (drop_while is_slash l).
  rewrite <- (forallb_reverse is_slash) in Hfront.
  destruct (drop_while_stops is_slash _ [] Hfront) as [_ Hne].
  destruct (drop_while is_slash (reverse (String.list_ascii_of_string front)))
    as [|c rest]; [done|reflexivity].
Qed.

Lemma append_assoc (s t u : string) : (s +:+ t) +:+ u = s +:+ t +:+ u.
Proof. apply chars_inj. by rewrite !chars_append, app_assoc. Qed.

(** An identifier [front/file] whose [front] has more than separators in
    it puts its file in a directory other than [output_dir]. *)
Lemma dirname_nested output_dir front file :
  has_separator file = false → all_separators front = false →
  dirname (output_file output_dir (front +:+ "/" +:+ file)) ≠ output_dir.
Proof.
  intros Hfile Hfront Heq. unfold output_file in Heq.
  assert (Hshape : output_dir +:+ "/" +:+ (front +:+ "/" +:+ file) +:+ ".mp3"
                   = (output_dir +:+ "/" +:+ front) +:+ "/" +:+ file +:+ ".mp3").
  { apply chars_inj. rewrite !chars_append, <- !app_assoc. reflexivity. }
  rewrite Hshape in Heq. clear Hshape.
  apply (f_equal String.list_ascii_of_string) in Heq.
  rewrite dirname_of_entry in Heq.
  - rewrite !chars_append, !reverse_app in Heq.
    destruct (drop_while_stops is_slash
                (reverse (String.list_ascii_of_string front))
                (reverse (String.list_ascii_of_string "/")
                 ++ reverse (String.list_ascii_of_string output_dir)))
      as [Hdrop Hne].
    { unfold all_separators in Hfront. by rewrite forallb_reverse. }
    rewrite <- app_assoc, Hdrop in Heq.
    apply (f_equal length) in Heq.
    rewrite !length_reverse, !length_app, !length_reverse in Heq.
    destruct (drop_while is_slash _); [done|]. cbn in Heq. lia.
  - rewrite has_separator_append, Hfile. reflexivity.
  - rewrite !chars_append, !forallb_app.
    unfold all_separators in Hfront. rewrite Hfront.
    by rewrite !andb_false_r.
Qed.

(** *** Canonical paths *)

Lemma chars_length (s : string) :
  length (String.list_ascii_of_string s) = String.length s.
Proof. induction s as [|c s IH]; cbn; [done|]. by rewrite IH. Qed.

Lemma tidy_append (s t : string) : tidy t = true → tidy (s +:+ t) = true.
Proof.
  unfold tidy. rewrite chars_append, reverse_app.
  by destruct (reverse (String.list_ascii_of_string t)).
Qed.

(** The directory of [front/file] is [front], when [file] has no
    separator and [front] is neither empty nor ends in one. *)
Lemma dirname_of_tidy (front file : string) :
  tidy front = true → has_separator file = false →
  dirname (front +:+ "/" +:+ file) = front.
Proof.
  intros Htidy Hfile. unfold tidy in Htidy. apply chars_inj.
  rewrite dirname_of_entry.
  - destruct (reverse (String.list_ascii_of_string front))
      as [|c rest] eqn:Hrev; [discriminate|].
    cbn [drop_while]. cbn in Htidy. destruct (is_slash c); [discriminate|].
    by rewrite <- Hrev, reverse_involutive.
  - exact Hfile.
  - rewrite <- forallb_reverse.
    destruct (reverse (String.list_ascii_of_string front))
      as [|c rest]; [discriminate|].
    cbn. by destruct (is_slash c).
Qed.

Lemma split_slash_cons (s : string) :
  ∃ part parts, split_slash s = part :: parts.
Proof.
  induction s as [|c s (part & parts & IH)]; cbn; [by eexists _, _|].
  destruct (is_slash c); [by eexists _, _|]. rewrite IH. by eexists _, _.
Qed.

(** [(s + "/" + t).split("/") = s.split("/") + t.split("/")] *)
Lemma split_slash_append (s t : string) :
  split_slash (s +:+ "/" +:+ t) = split_slash s ++ split_slash t.
Proof.
  induction s as [|c s IH].
  - reflexivity.
  - change (String c s +:+ "/" +:+ t) with (String c (s +:+ "/" +:+ t)).
    cbn [split_slash]. rewrite IH.
    destruct (is_slash c); [reflexivity|].
    by destruct (split_slash_cons s) as (part & parts & ->).
Qed.

(** Below a canonical directory, a relative path of valid components is
    canonical again. *)
Lemma canonical_below (output_dir sub : string) :
  tidy output_dir = true → canonical output_dir = true →
  valid_relative sub = true →
  String.length (output_dir +:+ "/" +:+ sub) < PATH_MAX →
  canonical (output_dir +:+ "/" +:+ sub) = true.
Proof.
  unfold canonical, valid_relative. intros Htidy Hdir Hsub Hlen.
  apply andb_true_iff in Hsub as [Htidy_sub Hparts].
  apply orb_true_iff in Hdir as [Hroot|Hdir].
  { apply bool_decide_eq_true_1 in Hroot. by subst. }
  apply orb_true_iff. right.
  apply andb_true_iff in Hdir as [_ Hcomps].
  assert (Hends : tidy (output_dir +:+ "/" +:+ sub) = true)
    by (by do 2 apply tidy_append).
  rewrite Hends, bool_decide_eq_true_2, split_slash_append by done.
  destruct (split_slash output_dir) as [|[|] [|c cs]]; try discriminate.
  cbn [app andb]. rewrite app_comm_cons, forallb_app.
  by rewrite Hcomps, Hparts.
Qed.

Lemma well_formed_batch_spec output_dir segs :
  well_formed_batch output_dir segs = true →
  tidy output_dir = true ∧ canonical output_dir = true
  ∧ ∀ seg, seg ∈ segs →
      has_separator seg.1 = false ∧ plain_identifier seg.1 = true.
Proof.
  unfold well_formed_batch. intros Hwf.
  apply andb_true_iff in Hwf as [Hdir Hsegs].
  apply andb_true_iff in Hdir as [Htidy Hcanon].
  split_and!; [done..|].
  intros seg Hseg. rewrite forallb_forall in Hsegs.
  apply list_elem_of_In, Hsegs, andb_true_iff in Hseg as [Hplain _].
  split; [|done]. unfold plain_identifier in Hplain.
  apply andb_true_iff in Hplain as [Hplain _].
  apply andb_true_iff in Hplain as [Hsep _].
  by apply negb_true_iff.
Qed.

(** ** Journals and file maps of a batch *)

Lemma saves_app evs1 evs2 : saves (evs1 ++ evs2) = saves evs1 ++ saves evs2.
Proof. apply omap_app. Qed.

Lemma written_app evs1 evs2 :
  written (evs1 ++ evs2) = written evs1 ++ written evs2.
Proof. apply omap_app. Qed.

Lemma made_app evs1 evs2 : made (evs1 ++ evs2) = made evs1 ++ made evs2.
Proof. apply omap_app. Qed.

Section BatchJournal.

Variable output_dir : string.

Lemma saves_batch_journal segs audios :
  length audios = length segs →
  saves (batch_journal output_dir segs audios) = map (call_of output_dir) segs.
Proof.
  revert audios. induction segs as [|seg segs IH]; intros [|a audios] Hlen;
    try discriminate; cbn; [reflexivity|].
  injection Hlen as Hlen. by rewrite <- (IH audios Hlen).
Qed.

Lemma written_batch_journal segs audios :
  length audios = length segs →
  written (batch_journal output_dir segs audios) = map (path_of output_dir) segs.
Proof.
  revert audios. induction segs as [|seg segs IH]; intros [|a audios] Hlen;
    try discriminate; cbn; [reflexivity|].
  injection Hlen as Hlen. by rewrite <- (IH audios Hlen).
Qed.

Lemma made_batch_journal segs audios :
  made (batch_journal output_dir segs audios) = [].
Proof.
  revert audios. induction segs as [|seg segs IH]; intros [|a audios];
    cbn; auto.
Qed.

Lemma fixed_voice_batch_journal segs audios :
  Forall fixed_voice (batch_journal output_dir segs audios).
Proof.
  revert audios. induction segs as [|seg segs IH]; intros [|a audios];
    cbn; auto.
  constructor; [by cbn|]. constructor; [by cbn|]. apply IH.
Qed.

Lemma store_all_dom segs audios (m : gmap string Audio) :
  length audios = length segs →
  dom (store_all output_dir segs audios m)
  = dom m ∪ list_to_set (map (path_of output_dir) segs).
Proof.
  revert audios m. induction segs as [|seg segs IH]; intros [|a audios] m Hlen;
    try discriminate; cbn.
  - by rewrite (right_id_L ∅ (∪)).
  - injection Hlen as Hlen. rewrite (IH audios _ Hlen), dom_insert_L.
    by rewrite (comm_L (∪) {[_]} (dom m)), (assoc_L (∪)).
Qed.

Lemma store_all_other segs audios (m : gmap string Audio) q :
  q ∉ map (path_of output_dir) segs →
  store_all output_dir segs audios m !! q = m !! q.
Proof.
  revert audios m. induction segs as [|seg segs IH]; intros [|a audios] m Hq;
    cbn; try reflexivity.
  cbn in Hq. apply not_elem_of_cons in Hq as [Hne Hq].
  rewrite (IH audios _ Hq). by rewrite lookup_insert_ne.
Qed.

(** The last segment that writes a path decides its content. *)
Lemma store_all_last segs audios (m : gmap string Audio) i seg a :
  segs !! i = Some seg → audios !! i = Some a →
  (∀ j seg', i < j → segs !! j = Some seg' →
     path_of output_dir seg' ≠ path_of output_dir seg) →
  store_all output_dir segs audios m !! path_of output_dir seg = Some a.
Proof.
  revert audios m i.
  induction segs as [|seg0 segs IH]; intros [|a0 audios] m i Hseg Ha Hlast;
    try (by rewrite lookup_nil in Hseg); try (by rewrite lookup_nil in Ha).
  destruct i as [|i]; cbn in *.
  - injection Hseg as ->. injection Ha as ->.
    rewrite store_all_other; [apply lookup_insert_eq|].
    intros Hin. apply list_elem_of_fmap in Hin as (seg' & Heq & Hin).
    apply list_elem_of_lookup in Hin as [j Hj].
    apply (Hlast (S j) seg'); [lia|exact Hj|by symmetry].
  - apply (IH audios _ i Hseg Ha).
    intros j seg' Hij Hj. apply (Hlast (S j) seg'); [lia|exact Hj].
Qed.

End BatchJournal.

(** ** Failing batches and the two shapes of [main] *)

Section Runs.

Variable tts : Service.

(** A batch that raises does so at one segment, after all the segments
    before it succeeded. *)
Lemma run_batch_fail segs output_dir w e w' :
  run_batch tts segs output_dir w = (inl e, w') →
  ∃ pre name text post w1,
    segs = pre ++ (name, text) :: post
    ∧ run_batch tts pre output_dir w = (inr tt, w1)
    ∧ generate_audio tts name text output_dir w1 = (inl e, w').
Proof.
  revert w. induction segs as [|[name text] segs IH]; intros w.
  - rewrite run_batch_nil. discriminate.
  - rewrite run_batch_cons.
    destruct (generate_audio tts name text output_dir w) as [[e1|[]] w1] eqn:Hgen.
    + intros [= <- <-]. exists [], name, text, segs, w. by rewrite run_batch_nil.
    + intros Hrest.
      apply IH in Hrest as (pre & name' & text' & post & w2 & -> & Hpre & Hfail).
      exists ((name, text) :: pre), name', text', post, w2.
      split; [reflexivity|]. split; [|exact Hfail].
      rewrite run_batch_cons, Hgen. exact Hpre.
Qed.

(** Directory preparation touches neither the files nor the service, and
    journals exactly one [os.makedirs]; when it returns normally the
    directory is there. *)
Lemma prepare_run n output_dir w r w0 :
  prepare n output_dir w = (r, w0) →
  files w0 = files w ∧ calls w0 = calls w
  ∧ journal w0 = journal w ++ [EvMakedirs output_dir]
  ∧ dirs w ⊆ dirs w0
  ∧ (r = inr tt → output_dir ∈ dirs w0).
Proof.
  unfold prepare, os_makedirs, log, print, modify. run_monad.
  repeat case_bool_decide; try destruct (existsb _ _); run_monad;
    intros [= <- <-]; cbn; repeat split; try done; try set_solver.
Qed.

Lemma main_with_run segs output_dir w :
  main_with tts segs output_dir w =
  match prepare (length segs) output_dir w with
  | (inl e, w0) => (inl e, w0)
  | (inr _, w0) =>
      match run_batch tts segs output_dir w0 with
      | (inl e, w1) => (inl e, w1)
      | (inr _, w1) =>
          (inr tt,
           mkWorld (dirs w1) (files w1) (calls w1) (journal w1)
             (stdout w1 ++ [""; "All audio files generated successfully!"]))
      end
  end.
Proof.
  unfold main_with, prepare, os_makedirs, log, print, modify. run_monad.
  repeat case_bool_decide; try destruct (existsb _ _); run_monad;
    try reflexivity;
    destruct (run_batch _ _ _ _) as [[e|[]] w1]; run_monad;
    rewrite <- ?app_assoc; reflexivity.
Qed.

Lemma archive_main_with_run segs output_dir w :
  archive_main_with tts segs output_dir w =
  match
    run_batch tts segs output_dir
      (mkWorld (dirs w) (files w) (calls w) (journal w)
         (stdout w ++ ["Generating " +:+ pretty (length segs) +:+ " audio files...";
                       "Using voice: " +:+ VOICE; ""]))
  with
  | (inl e, w1) => (inl e, w1)
  | (inr _, w1) =>
      (inr tt,
       mkWorld (dirs w1) (files w1) (calls w1) (journal w1)
         (stdout w1 ++ [""; "All audio files generated successfully!"]))
  end.
Proof.
  unfold archive_main_with, print, modify. run_monad.
  rewrite <- !app_assoc. cbn.
  destruct (run_batch _ _ _ _) as [[e|[]] w1]; run_monad;
    rewrite <- ?app_assoc; reflexivity.
Qed.

(** Every run is: a first phase that leaves files and service alone and
    makes no [save] call, then either nothing more (the first phase
    raised) or the batch loop, whose outcome is the run's. *)
Lemma runs_to_batch segs output_dir w r w' :
  runs_to tts segs output_dir w r w' →
  ∃ w0 evs0,
    files w0 = files w ∧ calls w0 = calls w
    ∧ journal w0 = journal w ++ evs0
    ∧ saves evs0 = [] ∧ written evs0 = [] ∧ Forall fixed_voice evs0
    ∧ ((∃ e, r = inl e ∧ w' = w0)
       ∨ (∃ w1, run_batch tts segs output_dir w0 = (r, w1)
                ∧ dirs w' = dirs w1 ∧ files w' = files w1
                ∧ calls w' = calls w1 ∧ journal w' = journal w1)).
Proof.
  intros [Hrun|Hrun].
  - rewrite main_with_run in Hrun.
    destruct (prepare _ _ _) as [r0 w0] eqn:Hprep.
    apply prepare_run in Hprep as (Hf & Hc & Hj & _ & _).
    exists w0, [EvMakedirs output_dir].
    repeat (split; [done || (repeat constructor; done)|]).
    destruct r0 as [e|[]].
    + injection Hrun as <- <-. left. by exists e.
    + right. destruct (run_batch _ _ _ _) as [[e|[]] w1];
        injection Hrun as <- <-; by exists w1.
  - rewrite archive_main_with_run in Hrun.
    match type of Hrun with
    | context [run_batch _ _ _ ?w0] => exists w0, []
    end.
    cbn. rewrite app_nil_r.
    repeat (split; [done|]).
    right. destruct (run_batch _ _ _ _) as [[e|[]] w1];
      injection Hrun as <- <-; by exists w1.
Qed.

End Runs.

(** ** What is already on disk does not matter to the loop *)

Section IgnoresFiles.

Variable tts : Service.



End IgnoresFiles.

(** ** The shape of every batch *)

Section Traces.

Variable tts : Service.

(** Whatever its outcome, a batch journals the segments in list order,
    each as one [save] call followed by its completion, up to the segment
    where it stopped. *)
Lemma run_batch_trace segs output_dir w r w' :
  run_batch tts segs output_dir w = (r, w') →
  ∃ k audios tail,
    length audios = k ∧ k ≤ length segs
    ∧ journal w' = journal w ++ batch_journal output_dir (take k segs) audios ++ tail
    ∧ (∀ i seg a, segs !! i = Some seg → audios !! i = Some a →
         tts (calls w + i) (request seg.2) = Stream a)
    ∧ (tail = []
       ∨ ∃ seg, segs !! k = Some seg
                ∧ tail = [EvSave (request seg.2) (path_of output_dir seg)])
    ∧ (r = inr tt → k = length segs ∧ tail = []
                    ∧ calls w' = calls w + length segs)
    ∧ calls w' ≤ calls w + k + length tail
    ∧ dirs w' = dirs w
    ∧ dom (files w) ∪ list_to_set (map (path_of output_dir) (take k segs))
      ⊆ dom (files w').
Proof.
  destruct r as [e|[]]; intros Hrun.
  - apply run_batch_fail in Hrun
      as (pre & name & text & post & w1 & -> & Hpre & Hfail).
    apply run_batch_ok in Hpre as (audios & Hlen & Hcalls & ->).
    apply generate_audio_fail in Hfail as (Hd & Hj & _ & Hc & Hdom & _).
    cbn in *.
    exists (length pre), audios, [EvSave (request text) (output_file output_dir name)].
    rewrite take_app_length.
    split; [done|]. split; [rewrite length_app; lia|].
    split; [by rewrite Hj, <- app_assoc|]. split.
    { intros i seg a Hseg Ha. apply (Hcalls i seg a); [|done].
      apply lookup_lt_Some in Ha. rewrite Hlen in Ha.
      by rewrite lookup_app_l in Hseg. }
    split.
    { right. exists (name, text). split; [|done].
      by rewrite list_lookup_middle. }
    split; [discriminate|]. split; [cbn; lia|]. split; [done|].
    rewrite store_all_dom in Hdom by done. exact Hdom.
  - apply run_batch_ok in Hrun as (audios & Hlen & Hcalls & ->). cbn.
    exists (length segs), audios, []. rewrite firstn_all, app_nil_r.
    split_and!; auto; try (cbn; lia).
    by rewrite store_all_dom.
Qed.

(** The same for a whole run of either [main]: what precedes the batch
    makes no [save] call and writes no file. *)
Lemma runs_to_trace segs output_dir w r w' :
  runs_to tts segs output_dir w r w' →
  ∃ evs0 k audios tail,
    journal w' = journal w ++ evs0
                 ++ batch_journal output_dir (take k segs) audios ++ tail
    ∧ saves evs0 = [] ∧ written evs0 = [] ∧ Forall fixed_voice evs0
    ∧ length audios = k ∧ k ≤ length segs
    ∧ (∀ i seg a, segs !! i = Some seg → audios !! i = Some a →
         tts (calls w + i) (request seg.2) = Stream a)
    ∧ (tail = []
       ∨ ∃ seg, segs !! k = Some seg
                ∧ tail = [EvSave (request seg.2) (path_of output_dir seg)])
    ∧ (r = inr tt → k = length segs ∧ tail = []
                    ∧ calls w' = calls w + length segs)
    ∧ calls w' ≤ calls w + k + length tail
    ∧ dom (files w) ∪ list_to_set (map (path_of output_dir) (take k segs))
      ⊆ dom (files w').
Proof.
  intros Hrun.
  apply runs_to_batch in Hrun
    as (w0 & evs0 & Hf & Hc & Hj & Hs & Hw & Hv & [(e & -> & ->)|Hbatch]).
  - exists evs0, 0, [], []. rewrite take_0. cbn. rewrite app_nil_r.
    split_and!; auto; try lia; try discriminate.
    rewrite Hf. by rewrite (right_id_L ∅ (∪)).
  - destruct Hbatch as (w1 & Hbatch & _ & Hf1 & Hc1 & Hj1).
    apply run_batch_trace in Hbatch
      as (k & audios & tail & Hlen & Hk & Hjb & Hcalls & Htail & Hok & Hle & _ & Hdom).
    exists evs0, k, audios, tail.
    rewrite Hj1, Hjb, Hj, Hc1, Hf1, <- Hc, <- Hf, <- app_assoc.
    split_and!; auto.
Qed.

(** A run that returns normally, in full: its journal, its files and its
    service calls. *)
Lemma runs_to_ok segs output_dir w w' :
  runs_to tts segs output_dir w (inr tt) w' →
  ∃ evs0 audios,
    length audios = length segs
    ∧ saves evs0 = [] ∧ written evs0 = []
    ∧ journal w' = journal w ++ evs0 ++ batch_journal output_dir segs audios
    ∧ files w' = store_all output_dir segs audios (files w)
    ∧ calls w' = calls w + length segs
    ∧ (∀ i seg a, segs !! i = Some seg → audios !! i = Some a →
         tts (calls w + i) (request seg.2) = Stream a).
Proof.
  intros Hrun.
  apply runs_to_batch in Hrun
    as (w0 & evs0 & Hf & Hc & Hj & Hs & Hw & Hv & [(e & ? & _)|Hbatch]);
    [discriminate|].
  destruct Hbatch as (w1 & Hbatch & _ & Hf1 & Hc1 & Hj1).
  apply run_batch_ok in Hbatch as (audios & Hlen & Hcalls & ->). cbn in *.
  exists evs0, audios.
  rewrite Hj1, Hf1, Hc1, Hj, Hf, <- Hc, <- app_assoc.
  split_and!; auto.
Qed.

(** The three scripts that prepare their directory do so first: the run's
    first effect is the [os.makedirs] call, nothing later creates
    directories, and no [save] call is made unless the directory exists. *)
Lemma main_with_prepares_first segs output_dir w r w' :
  main_with tts segs output_dir w = (r, w') →
  ∃ evs, journal w' = journal w ++ EvMakedirs output_dir :: evs
         ∧ made evs = []
         ∧ (saves evs ≠ [] → output_dir ∈ dirs w').
Proof.
  rewrite main_with_run.
  destruct (prepare _ _ _) as [r0 w0] eqn:Hprep.
  apply prepare_run in Hprep as (_ & _ & Hj & _ & Hdir).
  destruct r0 as [e|[]].
  - intros [= <- <-]. exists []. rewrite Hj. by split_and!.
  - destruct (run_batch _ _ _ _) as [r1 w1] eqn:Hbatch.
    apply run_batch_trace in Hbatch
      as (k & audios & tail & _ & _ & Hjb & _ & Htail & _ & _ & Hd & _).
    intros Hrun.
    assert (Hw' : journal w' = journal w1 ∧ dirs w' = dirs w1).
    { destruct r1 as [e|[]]; injection Hrun as <- <-; by split. }
    destruct Hw' as [-> ->].
    exists (batch_journal output_dir (take k segs) audios ++ tail).
    rewrite Hjb, Hj, <- app_assoc, Hd. split_and!; auto.
    rewrite made_app, made_batch_journal.
    by destruct Htail as [->|(seg & _ & ->)].
Qed.

End Traces.

(** The file names of a run that returns normally. *)
Lemma one_file_names tts segs output_dir w w' :
  runs_to tts segs output_dir w (inr tt) w' →
  ∃ evs, journal w' = journal w ++ evs
         ∧ written evs = output_file output_dir <$> segs.*1
         ∧ dom (files w')
           = dom (files w) ∪ list_to_set (output_file output_dir <$> segs.*1).
Proof.
  intros Hrun.
  apply runs_to_ok in Hrun as (evs0 & audios & Hlen & _ & Hw & Hj & Hf & _ & _).
  assert (Hnames : map (path_of output_dir) segs
                   = output_file output_dir <$> segs.*1).
  { by rewrite <- list_fmap_compose. }
  exists (evs0 ++ batch_journal output_dir segs audios).
  split; [exact Hj|].
  rewrite written_app, Hw, written_batch_journal, Hf, store_all_dom, Hnames
    by done.
  by split.
Qed.

(** The file names of any run: a prefix of the names of the list, all
    of them when the run returns normally. *)
Lemma file_names_prefix tts segs output_dir w r w' :
  runs_to tts segs output_dir w r w' →
  ∃ evs k,
    journal w' = journal w ++ evs
    ∧ written evs = take k (output_file output_dir <$> segs.*1)
    ∧ (r = inr tt → k = length segs).
Proof.
  intros Hrun.
  apply runs_to_trace in Hrun
    as (evs0 & k & audios & tail & Hj & _ & Hw & _ & Hlen & Hk & _ & Htail
        & Hok & _).
  exists (evs0 ++ batch_journal output_dir (take k segs) audios ++ tail), k.
  split; [exact Hj|]. split; [|by intros [? _]%Hok].
  rewrite !written_app, Hw, written_batch_journal
    by (rewrite length_take; lia).
  assert (Hnone : written tail = [])
    by (by destruct Htail as [->|(seg & _ & ->)]).
  rewrite Hnone, app_nil_r. cbn.
  change (map (path_of output_dir) (take k segs))
    with ((output_file output_dir ∘ fst) <$> take k segs).
  by rewrite list_fmap_compose, !fmap_take.
Qed.

(** ** The four scripts, run *)

(** On a fresh machine and with a service that always answers, the three
    scripts that prepare their directory run to the end, one call and one
    file per narration. *)
Example trilogy_main_runs :
  (Trilogy.main counting_tts fresh_world).1 = inr tt
  ∧ calls (Trilogy.main counting_tts fresh_world).2 = 14
  ∧ size (files (Trilogy.main counting_tts fresh_world).2) = 14.
Proof. vm_compute. by split_and!. Qed.

Example fridge_main_runs :
  (Fridge.main counting_tts fresh_world).1 = inr tt
  ∧ calls (Fridge.main counting_tts fresh_world).2 = 14
  ∧ size (files (Fridge.main counting_tts fresh_world).2) = 14.
Proof. vm_compute. by split_and!. Qed.

Example three_laws_main_runs :
  (ThreeLaws.main counting_tts fresh_world).1 = inr tt
  ∧ calls (ThreeLaws.main counting_tts fresh_world).2 = 13
  ∧ size (files (ThreeLaws.main counting_tts fresh_world).2) = 13.
Proof. vm_compute. by split_and!. Qed.

(** The archive script does so where its directory is already there. *)
Example archive_main_runs :
  (Archive.main counting_tts archive_world).1 = inr tt
  ∧ calls (Archive.main counting_tts archive_world).2 = 14
  ∧ size (files (Archive.main counting_tts archive_world).2) = 14.
Proof. vm_compute. by split_and!. Qed.

(** With [/out] there and nothing below it, the identifier [/b] is written
    (into [/out]), the identifier [sub/b] is not. *)
Example separators_on_disk :
  files (generate_audio counting_tts "/b" "" "/out" out_world).2
    !! "/out//b.mp3" = Some [Byte.x00]
  ∧ (generate_audio counting_tts "sub/b" "" "/out" out_world).1
    = inl (FileNotFoundError "/out/sub/b.mp3").
Proof. vm_compute. by split. Qed.

(** * The claims *)

(** C1 — stop on first error.  When directory preparation has succeeded,
    the segments before segment [k] have been synthesised, and the call for
    segment [k] raises [e], then [main] (and its loop) ends with [e] in the
    very world in which that call raised.  The outcome is that of the list
    cut after segment [k]: the later segments are never attempted.  The
    files of the earlier segments are all there (nothing is rolled back),
    the journal holds one [save] call for each of the segments [1..k] in
    order (no retry) and one completed file for each of [1..k-1], and the
    service was called at most [k] times. *)
Theorem stop_on_first_error tts pre name text post output_dir w0 w w1 w2 e :
  prepare (length (pre ++ (name, text) :: post)) output_dir w0 = (inr tt, w) →
  run_batch tts pre output_dir w = (inr tt, w1) →
  generate_audio tts name text output_dir w1 = (inl e, w2) →
  main_with tts (pre ++ (name, text) :: post) output_dir w0 = (inl e, w2)
  ∧ run_batch tts (pre ++ (name, text) :: post) output_dir w = (inl e, w2)
  ∧ run_batch tts (pre ++ [(name, text)]) output_dir w = (inl e, w2)
  ∧ (∀ seg, seg ∈ pre → path_of output_dir seg ∈ dom (files w2))
  ∧ (∃ evs, journal w2 = journal w ++ evs
            ∧ saves evs = map (call_of output_dir) (pre ++ [(name, text)])
            ∧ written evs = map (path_of output_dir) pre)
  ∧ calls w2 ≤ calls w + length pre + 1.
Proof.
  intros Hprep Hpre Hfail.
  assert (Hcut : ∀ post', run_batch tts (pre ++ (name, text) :: post') output_dir w
                          = (inl e, w2)).
  { intros post'. by rewrite run_batch_app, Hpre, run_batch_cons, Hfail. }
  split; [by rewrite main_with_run, Hprep, Hcut|].
  split; [apply Hcut|]. split; [apply Hcut|].
  apply run_batch_ok in Hpre as (audios & Hlen & _ & ->).
  apply generate_audio_fail in Hfail as (_ & Hj & _ & Hc & Hdom & _).
  cbn in *. split; [|split].
  - intros seg Hseg. apply Hdom. rewrite store_all_dom by done.
    apply elem_of_union_r, elem_of_list_to_set, list_elem_of_fmap.
    by exists seg.
  - exists (batch_journal output_dir pre audios
            ++ [EvSave (request text) (output_file output_dir name)]).
    split; [by rewrite Hj, app_assoc|].
    rewrite saves_app, written_app, saves_batch_journal,
      written_batch_journal by done.
    cbn. by rewrite map_app, app_nil_r.
  - lia.
Qed.

(** The service breaks on the second of three segments. *)
Lemma stop_on_first_error_witness :
  (main_with (failing_at 1) three_segments "/out" fresh_world).1
  = inl (ServiceError "503")
  ∧ run_batch (failing_at 1) three_segments "/out" out_world
    = run_batch (failing_at 1) [("a", "first"); ("b", "second")] "/out" out_world.
Proof.
  pose (w := (prepare 3 "/out" fresh_world).2).
  pose (w1 := (run_batch (failing_at 1) [("a", "first")] "/out" w).2).
  pose (w2 := (generate_audio (failing_at 1) "b" "second" "/out" w1).2).
  destruct (stop_on_first_error (failing_at 1) [("a", "first")] "b" "second"
              [("c", "third")] "/out" fresh_world w w1 w2 (ServiceError "503"))
    as (Hmain & _); [vm_compute; reflexivity..|].
  split.
  - change three_segments
      with ([("a", "first")] ++ ("b", "second") :: [("c", "third")]).
    by rewrite Hmain.
  - vm_compute; reflexivity.
Defined.




(** C3 — directory preparation.  The archive script makes no [os.makedirs]
    call.  Started on a machine where [/home/coder/manim/audio] is missing,
    for any behaviour of the service, its [main] makes the [save] call for
    the first segment as its first effect, that call raises
    [FileNotFoundError], no directory has been created, and the service was
    never reached. *)
Theorem archive_main_missing_directory tts :
  (Archive.main tts fresh_world).1
  = inl (FileNotFoundError "/home/coder/manim/audio/01_intro_classical.mp3")
  ∧ made (journal (Archive.main tts fresh_world).2) = []
  ∧ dirs (Archive.main tts fresh_world).2 = ∅
  ∧ saves (journal (Archive.main tts fresh_world).2)
    = [(request "In classical information theory, entropy measures global uncertainty over an entire distribution.",
        "/home/coder/manim/audio/01_intro_classical.mp3")]
  ∧ calls (Archive.main tts fresh_world).2 = 0.
Proof.
  rewrite archive_main_shape, archive_main_with_run.
  unfold Archive.narrations. rewrite run_batch_cons, generate_audio_run.
  vm_compute. by split_and!.
Qed.

(** C4 — strictly sequential, in list order.  Every run of either [main],
    whatever its outcome, journals after its first phase exactly this: for
    the segments [1..k] in list order, one [save] call immediately
    followed by its completion, then at most the one [save] call of segment
    [k+1] that raised.  The [i]-th completed call is the [i]-th call
    the service received.  A run that returns normally has [k] equal to
    the length of the list and has called the service once per segment. *)
Theorem sequential_in_list_order tts segs output_dir w r w' :
  runs_to tts segs output_dir w r w' →
  ∃ evs0 k audios tail,
    journal w' = journal w ++ evs0
                 ++ batch_journal output_dir (take k segs) audios ++ tail
    ∧ saves evs0 = [] ∧ written evs0 = []
    ∧ length audios = k ∧ k ≤ length segs
    ∧ (∀ i seg a, segs !! i = Some seg → audios !! i = Some a →
         tts (calls w + i) (request seg.2) = Stream a)
    ∧ (tail = []
       ∨ ∃ seg, segs !! k = Some seg
                ∧ tail = [EvSave (request seg.2) (path_of output_dir seg)])
    ∧ saves (evs0 ++ batch_journal output_dir (take k segs) audios ++ tail)
      = map (call_of output_dir) (take (k + length tail) segs)
    ∧ (r = inr tt → k = length segs ∧ tail = []
                    ∧ calls w' = calls w + length segs)
    ∧ calls w' ≤ calls w + k + length tail.
Proof.
  intros Hrun.
  apply runs_to_trace in Hrun
    as (evs0 & k & audios & tail & Hj & Hs & Hw & _ & Hlen & Hk & Hcalls
        & Htail & Hok & Hle & _).
  exists evs0, k, audios, tail. split_and!; auto.
  rewrite !saves_app, Hs, saves_batch_journal
    by (rewrite length_take; lia).
  destruct Htail as [->|(seg & Hseg & ->)]; cbn.
  - by rewrite Nat.add_0_r, app_nil_r.
  - rewrite Nat.add_1_r. by rewrite (take_S_r _ _ _ Hseg), map_app.
Qed.

(** Three segments and a service that always answers: three calls. *)
Lemma sequential_in_list_order_witness :
  calls (main_with counting_tts three_segments "/out" fresh_world).2
  = calls fresh_world + length three_segments.
Proof.
  pose (w' := (main_with counting_tts three_segments "/out" fresh_world).2).
  destruct (sequential_in_list_order counting_tts three_segments "/out"
              fresh_world (inr tt) w')
    as (evs0 & k & audios & tail & _ & _ & _ & _ & _ & _ & _ & _ & Hok & _).
  { left. vm_compute. reflexivity. }
  destruct (Hok eq_refl) as (_ & _ & Hcalls). exact Hcalls.
Defined.

(** C5 — the empty list.  With no segment the loop returns at once and
    leaves the world untouched.  Where directory preparation succeeds,
    [main] returns normally; the archive [main], which prepares nothing,
    always does.  Every run on the empty list leaves the files and the
    service call count as they were and journals no [save] call and no
    written file. *)
Theorem empty_batch tts output_dir w :
  (os_makedirs output_dir true w).1 = inr tt →
  run_batch tts [] output_dir w = (inr tt, w)
  ∧ (main_with tts [] output_dir w).1 = inr tt
  ∧ (archive_main_with tts [] output_dir w).1 = inr tt
  ∧ (∀ r w', runs_to tts [] output_dir w r w' →
       files w' = files w ∧ calls w' = calls w
       ∧ ∃ evs, journal w' = journal w ++ evs
                ∧ saves evs = [] ∧ written evs = []).
Proof.
  intros Hprep. split_and!.
  - reflexivity.
  - rewrite main_with_run.
    assert (Hfirst : (prepare (length (A := string * string) [])
                        output_dir w).1 = inr tt).
    { revert Hprep. unfold prepare, os_makedirs, log, print, modify.
      run_monad.
      repeat case_bool_decide; try destruct (existsb _ _); run_monad; done. }
    destruct (prepare _ _ _) as [r0 w0]. cbn in Hfirst. subst r0.
    by rewrite run_batch_nil.
  - by rewrite archive_main_with_run, run_batch_nil.
  - intros r w' Hrun.
    apply runs_to_batch in Hrun
      as (w0 & evs0 & Hf & Hc & Hj & Hs & Hw & _ & [(e & _ & ->)|Hbatch]).
    + split_and!; [done..|]. by exists evs0.
    + destruct Hbatch as (w1 & Hbatch & _ & -> & -> & ->).
      rewrite run_batch_nil in Hbatch. injection Hbatch as _ <-.
      split_and!; [done..|]. by exists evs0.
Qed.

(** The trilogy script's directory on a fresh machine, with nothing to
    narrate. *)
Lemma empty_batch_witness :
  (main_with counting_tts [] Trilogy.output_dir fresh_world).1 = inr tt
  ∧ files (main_with counting_tts [] Trilogy.output_dir fresh_world).2 = ∅
  ∧ calls (main_with counting_tts [] Trilogy.output_dir fresh_world).2 = 0.
Proof.
  destruct (empty_batch counting_tts Trilogy.output_dir fresh_world)
    as (_ & Hmain & _ & Hrun); [vm_compute; reflexivity|].
  destruct (Hrun (main_with counting_tts [] Trilogy.output_dir fresh_world).1
                 (main_with counting_tts [] Trilogy.output_dir fresh_world).2)
    as (Hfiles & Hcalls & _).
  { left. apply surjective_pairing. }
  by split_and!.
Defined.

(** C6 — one voice configuration.  [VOICE] is the constant
    ["en-US-AndrewNeural"], and in every run of either [main], whatever the
    list, the directory, the service and the outcome, each [save] call the
    run makes carries that voice, rate ["-5%"] and pitch ["+0Hz"]. *)
Theorem fixed_voice_configuration tts segs output_dir w r w' :
  runs_to tts segs output_dir w r w' →
  VOICE = "en-US-AndrewNeural"
  ∧ ∃ evs, journal w' = journal w ++ evs
           ∧ Forall fixed_voice evs
           ∧ ∀ req path, (req, path) ∈ saves evs →
               req = Communicate (req_text req) "en-US-AndrewNeural" "-5%" "+0Hz".
Proof.
  intros Hrun. split; [reflexivity|].
  apply runs_to_trace in Hrun
    as (evs0 & k & audios & tail & Hj & _ & _ & Hv0 & _ & _ & _ & Htail & _).
  exists (evs0 ++ batch_journal output_dir (take k segs) audios ++ tail).
  split; [exact Hj|].
  assert (Hall : Forall fixed_voice
            (evs0 ++ batch_journal output_dir (take k segs) audios ++ tail)).
  { repeat apply Forall_app_2; [done|apply fixed_voice_batch_journal|].
    destruct Htail as [->|(seg & _ & ->)]; repeat constructor. }
  split; [exact Hall|].
  intros req path Hin. apply list_elem_of_omap in Hin as (ev & Hev & Hsome).
  rewrite Forall_forall in Hall. apply Hall in Hev.
  destruct ev as [|req' path'|]; try discriminate.
  injection Hsome as -> ->. destruct req as [t v rt pt].
  cbn in Hev. destruct Hev as (-> & -> & ->). reflexivity.
Qed.

(** The fridge script on a fresh machine, the service breaking at its
    third segment. *)
Lemma fixed_voice_configuration_witness :
  ∃ evs, journal (Fridge.main (failing_at 2) fresh_world).2 = evs
         ∧ Forall fixed_voice evs.
Proof.
  destruct (fixed_voice_configuration (failing_at 2) Fridge.narrations
              Fridge.output_dir fresh_world
              (Fridge.main (failing_at 2) fresh_world).1
              (Fridge.main (failing_at 2) fresh_world).2)
    as (_ & evs & Hj & Hall & _).
  { left. apply surjective_pairing. }
  exists evs. split; [exact Hj|exact Hall].
Defined.



(** C8 — the same file names on a second run.  When a script is run
    twice in a row over the same list, each run writes, in list order, the
    files [output_dir/name.mp3] of a prefix of the identifiers, and of all
    of them when it returns normally: the names depend on the identifiers
    alone, not on what the service answered.  When both runs return
    normally they write the same names, and the second adds no file name
    to those present after the first. *)
Theorem same_file_names_on_rerun tts segs output_dir w r1 w1 r2 w2 :
  runs_to tts segs output_dir w r1 w1 →
  runs_to tts segs output_dir w1 r2 w2 →
  ∃ evs1 evs2 k1 k2,
    journal w1 = journal w ++ evs1 ∧ journal w2 = journal w1 ++ evs2
    ∧ written evs1 = take k1 (output_file output_dir <$> segs.*1)
    ∧ written evs2 = take k2 (output_file output_dir <$> segs.*1)
    ∧ (r1 = inr tt → r2 = inr tt →
       written evs1 = output_file output_dir <$> segs.*1
       ∧ written evs2 = written evs1
       ∧ dom (files w2) = dom (files w1)).
Proof.
  intros Hrun1 Hrun2.
  destruct (file_names_prefix _ _ _ _ _ _ Hrun1) as (evs1 & k1 & Hj1 & Hw1 & Hk1).
  destruct (file_names_prefix _ _ _ _ _ _ Hrun2) as (evs2 & k2 & Hj2 & Hw2 & Hk2).
  exists evs1, evs2, k1, k2. split_and!; try done.
  intros -> ->.
  assert (Hall : ∀ k, k = length segs →
            take k (output_file output_dir <$> segs.*1)
            = output_file output_dir <$> segs.*1).
  { intros k ->. apply take_ge. by rewrite !length_fmap. }
  rewrite Hw2, Hw1, !Hall by auto. split_and!; try done.
  apply one_file_names in Hrun1 as (_ & _ & _ & Hdom1).
  apply one_file_names in Hrun2 as (_ & _ & _ & Hdom2).
  by rewrite Hdom2, Hdom1, <- (assoc_L (∪)), (idemp_L (∪)).
Qed.

(** Two runs in a row against a service that never answers twice alike:
    the same file names, other contents. *)
Lemma same_file_names_on_rerun_witness :
  let w1 := (main_with counting_tts three_segments "/out" fresh_world).2 in
  let w2 := (main_with counting_tts three_segments "/out" w1).2 in
  dom (files w2) = dom (files w1)
  ∧ files w1 !! "/out/a.mp3" = Some [Byte.x00]
  ∧ files w2 !! "/out/a.mp3" = Some [Byte.x03].
Proof.
  intros w1 w2.
  destruct (same_file_names_on_rerun counting_tts three_segments "/out"
              fresh_world (inr tt) w1 (inr tt) w2)
    as (evs1 & evs2 & k1 & k2 & _ & _ & _ & _ & Hsame);
    [left; vm_compute; reflexivity..|].
  destruct (Hsame eq_refl eq_refl) as (_ & _ & Hdom).
  split; [exact Hdom|]. split; vm_compute; reflexivity.
Defined.

(** C9 — distinct identifiers in the embedded lists.  In each of the four
    scripts the identifiers of [narrations] are pairwise distinct, and so
    are the output paths derived from them. *)
Theorem embedded_identifiers_distinct :
  (NoDup Trilogy.narrations.*1
   ∧ NoDup (map (path_of Trilogy.output_dir) Trilogy.narrations))
  ∧ (NoDup Fridge.narrations.*1
     ∧ NoDup (map (path_of Fridge.output_dir) Fridge.narrations))
  ∧ (NoDup ThreeLaws.narrations.*1
     ∧ NoDup (map (path_of ThreeLaws.output_dir) ThreeLaws.narrations))
  ∧ (NoDup Archive.narrations.*1
     ∧ NoDup (map (path_of Archive.output_dir) Archive.narrations)).
Proof.
  assert (Hpaths : ∀ output_dir (segs : list (string * string)),
            NoDup segs.*1 → NoDup (map (path_of output_dir) segs)).
  { intros output_dir segs Hnodup.
    change (map (path_of output_dir) segs)
      with ((output_file output_dir ∘ fst) <$> segs).
    rewrite list_fmap_compose. apply NoDup_fmap_2; [|done].
    intros name1 name2. apply output_file_inj. }
  assert (Htrilogy : NoDup Trilogy.narrations.*1)
    by (apply (bool_decide_unpack _); vm_compute; exact I).
  assert (Hfridge : NoDup Fridge.narrations.*1)
    by (apply (bool_decide_unpack _); vm_compute; exact I).
  assert (Hlaws : NoDup ThreeLaws.narrations.*1)
    by (apply (bool_decide_unpack _); vm_compute; exact I).
  assert (Harchive : NoDup Archive.narrations.*1)
    by (apply (bool_decide_unpack _); vm_compute; exact I).
  split_and!; auto.
Qed.

(** C10 — the output path is a plain concatenation.  For every
    identifier and directory, [generate_audio] hands to [save] exactly the
    string [output_dir ++ "/" ++ name ++ ".mp3"], as its first effect and
    whatever the identifier looks like: nothing is checked, cleaned or
    escaped.  Hence an identifier without separator names a file directly
    in [output_dir] (a directory path not ending in a separator), while an
    identifier [sub/file], with [sub] a relative path of ordinary directory
    names (none empty, [.] or [..]) and [file] free of separators, names a
    file in the subdirectory [output_dir/sub]: that directory is not
    [output_dir], it is canonical when [output_dir] is, and
    [generate_audio] returns normally only if it exists already. *)
Theorem output_path_is_plain_concatenation tts name text output_dir w :
  output_file output_dir name = output_dir +:+ "/" +:+ name +:+ ".mp3"
  ∧ (∃ rest,
       journal (generate_audio tts name text output_dir w).2
       = journal w
         ++ EvSave (request text) (output_dir +:+ "/" +:+ name +:+ ".mp3")
            :: rest)
  ∧ (tidy output_dir = true → has_separator name = false →
     dirname (output_file output_dir name) = output_dir)
  ∧ (∀ sub file,
       name = sub +:+ "/" +:+ file →
       valid_relative sub = true → has_separator file = false →
       dirname (output_file output_dir name) = output_dir +:+ "/" +:+ sub
       ∧ output_dir +:+ "/" +:+ sub ≠ output_dir
       ∧ ((generate_audio tts name text output_dir w).1 = inr tt →
          output_dir +:+ "/" +:+ sub ∈ dirs w)
       ∧ (tidy output_dir = true → canonical output_dir = true →
          String.length (output_dir +:+ "/" +:+ sub) < PATH_MAX →
          canonical (output_dir +:+ "/" +:+ sub) = true)).
Proof.
  split_and!.
  - reflexivity.
  - rewrite generate_audio_run. cbn zeta.
    repeat case_bool_decide; try destruct (tts _ _); cbn;
      rewrite <- ?app_assoc; eexists; reflexivity.
  - intros Htidy Hname. apply dirname_of_tidy; [done|].
    by rewrite has_separator_append, Hname.
  - intros sub file -> Hsub Hfile.
    assert (Htidy : tidy sub = true).
    { unfold valid_relative in Hsub. by apply andb_true_iff in Hsub as [? _]. }
    assert (Hdir : dirname (output_file output_dir (sub +:+ "/" +:+ file))
                   = output_dir +:+ "/" +:+ sub).
    { unfold output_file.
      assert (Hshape :
        output_dir +:+ "/" +:+ (sub +:+ "/" +:+ file) +:+ ".mp3"
        = (output_dir +:+ "/" +:+ sub) +:+ "/" +:+ file +:+ ".mp3").
      { apply chars_inj. rewrite !chars_append, <- !app_assoc. reflexivity. }
      rewrite Hshape. apply dirname_of_tidy.
      - by do 2 apply tidy_append.
      - by rewrite has_separator_append, Hfile. }
    split_and!.
    + exact Hdir.
    + intros Heq. apply (f_equal String.length) in Heq.
      rewrite <- !chars_length, !chars_append, !length_app in Heq.
      cbn in Heq. lia.
    + rewrite generate_audio_run. cbn zeta. rewrite Hdir.
      repeat case_bool_decide; try destruct (tts _ _); try discriminate;
        done.
    + intros Hends Hcanon Hlen. by apply canonical_below.
Qed.

(** The identifier [sub/x] in [/out], and a plain one. *)
Lemma output_path_is_plain_concatenation_witness :
  dirname "/out/sub/x.mp3" = "/out/sub"
  ∧ canonical "/out/sub" = true
  ∧ (generate_audio counting_tts "sub/x" "" "/out" out_world).1 ≠ inr tt
  ∧ dirname "/out/01_intro.mp3" = "/out".
Proof.
  destruct (output_path_is_plain_concatenation counting_tts "sub/x" ""
              "/out" out_world) as (_ & _ & _ & Hsub).
  destruct (Hsub "sub" "x" eq_refl eq_refl eq_refl)
    as (Hdir & _ & Hneeds & Hcanon).
  destruct (output_path_is_plain_concatenation counting_tts "01_intro" ""
              "/out" fresh_world) as (_ & _ & Hflat & _).
  split_and!.
  - exact Hdir.
  - apply Hcanon; [reflexivity|reflexivity|]. vm_compute. lia.
  - intros Hok. apply Hneeds in Hok. revert Hok. by vm_compute.
  - apply Hflat; reflexivity.
Defined.

(** The identifier [/b] has a separator in it, and yet the directory of
    its file [/out//b.mp3] is [/out]. *)
Lemma leading_separator_stays_in_directory : ¬ separator_leaves_directory.
Proof.
  intros Hclaim. apply (Hclaim "/out" "/b"); reflexivity.
Qed.

(** * Further properties of the scripts *)

(** ** What is printed *)

Lemma os_makedirs_run path w r w0 :
  os_makedirs path true w = (r, w0) →
  files w0 = files w ∧ calls w0 = calls w ∧ stdout w0 = stdout w
  ∧ journal w0 = journal w ++ [EvMakedirs path]
  ∧ dirs w ⊆ dirs w0
  ∧ (r ≠ inr tt → dirs w0 = dirs w)
  ∧ (r = inr tt → path ∈ dirs w0)
  ∧ (path ∈ dirs w → r = inr tt ∧ dirs w0 = dirs w).
Proof.
  unfold os_makedirs, log, modify. run_monad.
  repeat case_bool_decide; try destruct (existsb _ _); run_monad;
    intros [= <- <-]; cbn; split_and!; try done; try set_solver.
Qed.

Lemma prepare_cases n output_dir w :
  prepare n output_dir w =
  match os_makedirs output_dir true w with
  | (inl e, w0) => (inl e, w0)
  | (inr _, w0) =>
      (inr tt,
       mkWorld (dirs w0) (files w0) (calls w0) (journal w0)
         (stdout w0 ++ header n output_dir))
  end.
Proof.
  unfold prepare, header, print, modify. run_monad.
  destruct (os_makedirs output_dir true w) as [[e|[]] w0]; run_monad;
    rewrite <- ?app_assoc; reflexivity.
Qed.

Section Printed.

Variable tts : Service.



End Printed.

(** X1 — the transcript of a run that returns normally.  [main] of the
    three scripts that prepare their directory prints the count of
    narrations, the voice, the directory and a blank line, then one
    ["Generated: path"] line per segment in list order, then a blank line
    and the closing line; the archive [main] prints the same without the
    directory line. *)
Theorem transcript_of_a_normal_run tts segs output_dir w w' :
  (main_with tts segs output_dir w = (inr tt, w') →
   stdout w' = stdout w ++ header (length segs) output_dir
               ++ map (λ seg, progress_line (path_of output_dir seg)) segs
               ++ footer)
  ∧ (archive_main_with tts segs output_dir w = (inr tt, w') →
     stdout w' = stdout w ++ archive_header (length segs)
                 ++ map (λ seg, progress_line (path_of output_dir seg)) segs
                 ++ footer).
Proof.
  split; intros Hrun.
  - rewrite main_with_run, prepare_cases in Hrun.
    destruct (os_makedirs output_dir true w) as [[e|[]] w0] eqn:Hprep;
      [discriminate|].
    apply os_makedirs_run in Hprep as (_ & _ & Hout & _).
    destruct (run_batch _ _ _ _) as [[e|[]] w1] eqn:Hbatch; [discriminate|].
    apply run_batch_ok in Hbatch as (audios & _ & _ & ->).
    injection Hrun as <-. cbn. by rewrite Hout, <- !app_assoc.
  - rewrite archive_main_with_run in Hrun.
    destruct (run_batch _ _ _ _) as [[e|[]] w1] eqn:Hbatch; [discriminate|].
    apply run_batch_ok in Hbatch as (audios & _ & _ & ->).
    injection Hrun as <-. cbn. by rewrite <- !app_assoc.
Qed.

(** Three segments into [/out], by both shapes of [main]. *)
Lemma transcript_of_a_normal_run_witness :
  stdout (main_with counting_tts three_segments "/out" fresh_world).2
  = ["Generating 3 audio files..."; "Using voice: en-US-AndrewNeural";
     "Output directory: /out"; "";
     "Generated: /out/a.mp3"; "Generated: /out/b.mp3"; "Generated: /out/c.mp3";
     ""; "All audio files generated successfully!"]
  ∧ stdout (archive_main_with counting_tts three_segments "/out" out_world).2
    = ["Generating 3 audio files..."; "Using voice: en-US-AndrewNeural"; "";
       "Generated: /out/a.mp3"; "Generated: /out/b.mp3"; "Generated: /out/c.mp3";
       ""; "All audio files generated successfully!"].
Proof.
  split.
  - destruct (transcript_of_a_normal_run counting_tts three_segments "/out"
                fresh_world
                (main_with counting_tts three_segments "/out" fresh_world).2)
      as [Hmain _].
    rewrite Hmain; [reflexivity|vm_compute; reflexivity].
  - destruct (transcript_of_a_normal_run counting_tts three_segments "/out"
                out_world
                (archive_main_with counting_tts three_segments "/out" out_world).2)
      as [_ Harchive].
    rewrite Harchive; [reflexivity|vm_compute; reflexivity].
Defined.





(** X4 — a directory that is already there is no obstacle.  After a run
    of [main] that returned normally, directory preparation on the same
    directory returns normally again and changes no directory: the script
    can be run a second time. *)
Theorem preparation_can_be_repeated tts segs output_dir w w1 n :
  main_with tts segs output_dir w = (inr tt, w1) →
  output_dir ∈ dirs w1
  ∧ (prepare n output_dir w1).1 = inr tt
  ∧ dirs (prepare n output_dir w1).2 = dirs w1
  ∧ files (prepare n output_dir w1).2 = files w1.
Proof.
  intros Hrun.
  assert (Hdir : output_dir ∈ dirs w1).
  { rewrite main_with_run in Hrun.
    destruct (prepare _ _ _) as [[e|[]] w0] eqn:Hprep; [discriminate|].
    apply prepare_run in Hprep as (_ & _ & _ & _ & Hin).
    destruct (run_batch _ _ _ _) as [[e|[]] w2] eqn:Hbatch; [discriminate|].
    apply run_batch_ok in Hbatch as (audios & _ & _ & ->).
    injection Hrun as <-. cbn. by apply Hin. }
  split; [exact Hdir|]. rewrite prepare_cases.
  destruct (os_makedirs output_dir true w1) as [r w2] eqn:Hprep.
  apply os_makedirs_run in Hprep as (Hf & _ & _ & _ & _ & _ & _ & Hthere).
  destruct (Hthere Hdir) as [-> Hd]. cbn. by split_and!.
Qed.

Lemma preparation_can_be_repeated_witness :
  let w1 := (main_with counting_tts three_segments "/out" fresh_world).2 in
  (prepare 3 "/out" w1).1 = inr tt ∧ dirs (prepare 3 "/out" w1).2 = dirs w1.
Proof.
  intros w1.
  destruct (preparation_can_be_repeated counting_tts three_segments "/out"
              fresh_world w1 3) as (_ & Hok & Hdirs & _);
    [vm_compute; reflexivity|].
  split; [exact Hok|exact Hdirs].
Defined.

(** ** Directories and other files *)

Section Untouched.

Variable tts : Service.

(** Whatever its outcome, the loop leaves alone every path that is not
    the output path of one of its segments. *)
Lemma run_batch_other segs output_dir w r w' q :
  run_batch tts segs output_dir w = (r, w') →
  q ∉ map (path_of output_dir) segs →
  files w' !! q = files w !! q.
Proof.
  destruct r as [e|[]]; intros Hrun Hq.
  - apply run_batch_fail in Hrun
      as (pre & name & text & post & w1 & -> & Hpre & Hfail).
    apply run_batch_ok in Hpre as (audios & _ & _ & ->).
    apply generate_audio_fail in Hfail as (_ & _ & _ & _ & _ & Hother).
    rewrite map_app in Hq. cbn in Hq, Hother.
    apply not_elem_of_app in Hq as [Hpre Hrest].
    apply not_elem_of_cons in Hrest as [Hne _].
    rewrite Hother by done. by apply store_all_other.
  - apply run_batch_ok in Hrun as (audios & _ & _ & ->). cbn.
    by apply store_all_other.
Qed.

End Untouched.

(** X5 — only [os.makedirs] makes directories.  The loop, and with it the
    archive [main], leaves the set of directories exactly as it found it,
    whatever happens; [main] of the other three scripts leaves it as its
    [os.makedirs] call made it.  No run ever removes a directory. *)
Theorem only_makedirs_changes_directories tts segs output_dir w :
  dirs (run_batch tts segs output_dir w).2 = dirs w
  ∧ dirs (archive_main_with tts segs output_dir w).2 = dirs w
  ∧ dirs (main_with tts segs output_dir w).2
    = dirs (os_makedirs output_dir true w).2
  ∧ dirs w ⊆ dirs (main_with tts segs output_dir w).2.
Proof.
  assert (Hloop : ∀ v, dirs (run_batch tts segs output_dir v).2 = dirs v).
  { intros v. destruct (run_batch tts segs output_dir v) as [r v'] eqn:Hrun.
    by apply run_batch_trace in Hrun
      as (k & audios & tail & _ & _ & _ & _ & _ & _ & _ & Hd & _). }
  assert (Hmain : dirs (main_with tts segs output_dir w).2
                  = dirs (os_makedirs output_dir true w).2).
  { rewrite main_with_run, prepare_cases.
    destruct (os_makedirs output_dir true w) as [[e|[]] w0]; [done|].
    match goal with |- context [run_batch _ _ _ ?v] => specialize (Hloop v) end.
    destruct (run_batch _ _ _ _) as [[e|[]] w1]; exact Hloop. }
  split_and!.
  - apply Hloop.
  - rewrite archive_main_with_run.
    match goal with |- context [run_batch _ _ _ ?v] => specialize (Hloop v) end.
    destruct (run_batch _ _ _ _) as [[e|[]] w1]; exact Hloop.
  - exact Hmain.
  - rewrite Hmain.
    destruct (os_makedirs output_dir true w) as [r w0] eqn:Hprep.
    by apply os_makedirs_run in Hprep as (_ & _ & _ & _ & Hsub & _).
Qed.

(** The same for a whole run, and no file is ever removed. *)
Lemma run_other_files tts segs output_dir w r w' :
  runs_to tts segs output_dir w r w' →
  dom (files w) ⊆ dom (files w')
  ∧ ∀ q, q ∉ map (path_of output_dir) segs → files w' !! q = files w !! q.
Proof.
  intros Hrun. split.
  - apply runs_to_trace in Hrun
      as (evs0 & k & audios & tail & _ & _ & _ & _ & _ & _ & _ & _ & _ & _ & Hdom).
    etrans; [|exact Hdom]. apply union_subseteq_l.
  - intros q Hq.
    apply runs_to_batch in Hrun
      as (w0 & _ & Hf & _ & _ & _ & _ & _ & [(e & _ & ->)|Hbatch]).
    + by rewrite Hf.
    + destruct Hbatch as (w1 & Hbatch & _ & -> & _).
      rewrite <- Hf. by apply (run_batch_other tts segs output_dir w0 r w1).
Qed.

(** X6 — other files are left alone.  For a batch whose output paths are
    canonical, run on a disk: in every run of either [main], whatever its
    outcome, no file is removed, and every file other than the output files
    [output_dir/name.mp3] of the listed segments holds at the end what it
    held at the start. *)
Theorem other_files_are_left_alone tts segs output_dir w r w' :
  canonical_world w →
  well_formed_batch output_dir segs = true →
  runs_to tts segs output_dir w r w' →
  dom (files w) ⊆ dom (files w')
  ∧ ∀ q, canonical q = true → q ∉ map (path_of output_dir) segs →
         files w' !! q = files w !! q.
Proof.
  intros _ _ Hrun. apply run_other_files in Hrun as [Hdom Hother].
  split; [exact Hdom|]. intros q _. apply Hother.
Qed.

(** A stale file of another production survives a run that breaks. *)
Lemma other_files_are_left_alone_witness :
  let w := mkWorld {["/out"]} {["/out/old.mp3" := [Byte.x2a]]} 0 [] [] in
  files (main_with (failing_at 1) three_segments "/out" w).2 !! "/out/old.mp3"
  = Some [Byte.x2a].
Proof.
  intros w.
  destruct (other_files_are_left_alone (failing_at 1) three_segments "/out" w
              (main_with (failing_at 1) three_segments "/out" w).1
              (main_with (failing_at 1) three_segments "/out" w).2)
    as [_ Hother].
  { by apply (bool_decide_unpack _); vm_compute. }
  { vm_compute. reflexivity. }
  { left. apply surjective_pairing. }
  rewrite Hother; [reflexivity|reflexivity|].
  by apply (bool_decide_unpack _); vm_compute.
Defined.

(** X7 — one loop over a concatenation is two loops in a row.  Running
    the loop over [xs ++ ys] is running it over [xs] and, when that returns
    normally, over [ys] from the world it left; when the loop over [xs]
    raises, so does the loop over [xs ++ ys], in the same world. *)
Theorem loop_over_a_concatenation tts xs ys output_dir w :
  run_batch tts (xs ++ ys) output_dir w
  = (run_batch tts xs output_dir;; run_batch tts ys output_dir) w
  ∧ (∀ w1, run_batch tts xs output_dir w = (inr tt, w1) →
       run_batch tts (xs ++ ys) output_dir w = run_batch tts ys output_dir w1)
  ∧ (∀ e w1, run_batch tts xs output_dir w = (inl e, w1) →
       run_batch tts (xs ++ ys) output_dir w = (inl e, w1)).
Proof.
  split_and!.
  - by rewrite run_batch_app, bind_run.
  - intros w1 Hxs. by rewrite run_batch_app, Hxs.
  - intros e w1 Hxs. by rewrite run_batch_app, Hxs.
Qed.

Lemma loop_over_a_concatenation_witness :
  run_batch counting_tts three_segments "/out" out_world
  = run_batch counting_tts [("b", "second"); ("c", "third")] "/out"
      (run_batch counting_tts [("a", "first")] "/out" out_world).2
  ∧ run_batch (failing_at 0) three_segments "/out" out_world
    = run_batch (failing_at 0) [("a", "first")] "/out" out_world.
Proof.
  destruct (loop_over_a_concatenation counting_tts [("a", "first")]
              [("b", "second"); ("c", "third")] "/out" out_world)
    as (_ & Hok & _).
  destruct (loop_over_a_concatenation (failing_at 0) [("a", "first")]
              [("b", "second"); ("c", "third")] "/out" out_world)
    as (_ & _ & Hfail).
  split.
  - apply Hok. vm_compute. reflexivity.
  - change three_segments
      with ([("a", "first")] ++ [("b", "second"); ("c", "third")]).
    rewrite (Hfail (ServiceError "503")
               (run_batch (failing_at 0) [("a", "first")] "/out" out_world).2);
      vm_compute; reflexivity.
Defined.

(** ** When a run returns normally *)

Lemma drop_while_length {A : Type} (f : A → bool) (l : list A) :
  length (drop_while f l) ≤ length l.
Proof.
  induction l as [|x l IH]; cbn; [done|]. destruct (f x); cbn; lia.
Qed.

Lemma dirname_length (p : string) :
  String.length (dirname p) ≤ String.length p.
Proof.
  rewrite <- !chars_length. unfold dirname.
  rewrite String.list_ascii_of_string_of_list_ascii, length_reverse.
  pose proof (drop_while_length (λ c, negb (is_slash c))
                (reverse (String.list_ascii_of_string p))) as Hhead.
  rewrite length_reverse in Hhead.
  pose proof (drop_while_length is_slash
                (drop_while (λ c, negb (is_slash c))
                   (reverse (String.list_ascii_of_string p)))) as Hstrip.
  destruct (drop_while is_slash _); cbn in *; lia.
Qed.

Lemma parents_upto_length fuel p d :
  d ∈ parents_upto fuel p → String.length d ≤ String.length p.
Proof.
  revert p. induction fuel as [|fuel IH]; intros p; cbn.
  - intros Hin. by apply elem_of_nil in Hin.
  - case_bool_decide; [intros Hin; by apply elem_of_nil in Hin|].
    pose proof (dirname_length p).
    intros [->|Hin]%elem_of_cons; [done|].
    apply IH in Hin. lia.
Qed.

Lemma output_file_length output_dir name :
  String.length output_dir < String.length (output_file output_dir name).
Proof.
  unfold output_file. rewrite <- !chars_length, !chars_append, !length_app.
  cbn. lia.
Qed.

(** An output path is neither the directory being prepared nor one of the
    directories above it. *)
Lemma output_file_not_prepared output_dir name :
  output_file output_dir name
  ∉ ({[output_dir]} ∪ list_to_set (parents output_dir) : gset string).
Proof.
  pose proof (output_file_length output_dir name) as Hlen.
  intros [Hin|Hin]%elem_of_union.
  - apply elem_of_singleton in Hin. rewrite Hin in Hlen. lia.
  - apply elem_of_list_to_set, parents_upto_length in Hin. lia.
Qed.

(** In a tidy directory, an identifier without separator names a direct
    entry: the directory of its output path is the directory itself. *)
Lemma dirname_tidy output_dir name :
  tidy output_dir = true → has_separator name = false →
  dirname (output_file output_dir name) = output_dir.
Proof.
  intros Htidy Hname. unfold tidy in Htidy. apply chars_inj.
  unfold output_file. rewrite dirname_of_entry.
  - destruct (reverse (String.list_ascii_of_string output_dir))
      as [|c rest] eqn:Hrev; [discriminate|].
    cbn [drop_while]. cbn in Htidy. destruct (is_slash c); [discriminate|].
    by rewrite <- Hrev, reverse_involutive.
  - by rewrite has_separator_append, Hname.
  - rewrite <- forallb_reverse.
    destruct (reverse (String.list_ascii_of_string output_dir))
      as [|c rest]; [discriminate|].
    cbn. by destruct (is_slash c).
Qed.

Lemma os_makedirs_dirs path w :
  dirs (os_makedirs path true w).2
  ⊆ dirs w ∪ ({[path]} ∪ list_to_set (parents path)).
Proof.
  unfold os_makedirs, log, modify. run_monad.
  repeat case_bool_decide; try destruct (existsb _ _); run_monad;
    try apply union_subseteq_l.
  by rewrite <- (assoc_L (∪)).
Qed.

(** When the loop returns normally, segment by segment. *)
Lemma loop_returns_normally_iff_aux tts segs output_dir w :
  (run_batch tts segs output_dir w).1 = inr tt
  ↔ ∀ i seg, segs !! i = Some seg →
      (path_of output_dir seg ∉ dirs w)
      ∧ dirname (path_of output_dir seg) ∈ dirs w
      ∧ ∃ audio, tts (calls w + i) (request seg.2) = Stream audio.
Proof.
  revert w. induction segs as [|[name text] segs IH]; intros w.
  - rewrite run_batch_nil. split; [|done].
    intros _ i seg Hi. by rewrite lookup_nil in Hi.
  - rewrite run_batch_cons, generate_audio_run. cbn zeta. split.
    + intros Hok.
      repeat case_bool_decide; try discriminate.
      destruct (tts (calls w) (request text)) as [audio|] eqn:Htts;
        [|discriminate].
      pose proof (proj1 (IH _) Hok) as Hrest. cbn in Hrest.
      intros [|i] seg Hseg.
      * injection Hseg as <-. rewrite Nat.add_0_r. split_and!; eauto.
      * rewrite <- Nat.add_succ_comm. by apply Hrest.
    + intros Hall.
      destruct (Hall 0 (name, text) eq_refl) as (Hnd & Hdir & audio & Htts).
      rewrite Nat.add_0_r in Htts. unfold path_of in Hnd, Hdir.
      cbn in Hnd, Hdir, Htts.
      rewrite bool_decide_eq_false_2, bool_decide_eq_true_2, Htts by done.
      apply IH. cbn. intros i seg Hseg.
      rewrite <- Nat.add_succ_r. by apply (Hall (S i)).
Qed.

(** X8 — when the loop returns normally.  For a batch whose output
    paths are canonical, run on a disk, the loop returns normally if and
    only if, for each segment, its output path is not a directory, the
    directory of its output path exists, and the answer of the service to
    the call made for it (the [i]-th call of the loop for the [i]-th
    segment) is a complete stream.  These conditions are read in the world
    the loop starts in: nothing an earlier segment does can make a later
    one fail or succeed. *)
Theorem loop_returns_normally_iff tts segs output_dir w :
  canonical_world w →
  well_formed_batch output_dir segs = true →
  (run_batch tts segs output_dir w).1 = inr tt
  ↔ ∀ i seg, segs !! i = Some seg →
      (path_of output_dir seg ∉ dirs w)
      ∧ dirname (path_of output_dir seg) ∈ dirs w
      ∧ ∃ audio, tts (calls w + i) (request seg.2) = Stream audio.
Proof. intros _ _. apply loop_returns_normally_iff_aux. Qed.

(** With [/out] there, three plain identifiers go through; on a machine
    without [/out] the first of them does not. *)
Lemma loop_returns_normally_iff_witness :
  (run_batch counting_tts three_segments "/out" out_world).1 = inr tt
  ∧ (run_batch counting_tts three_segments "/out" fresh_world).1 ≠ inr tt.
Proof.
  split.
  - apply loop_returns_normally_iff.
    + by apply (bool_decide_unpack _); vm_compute.
    + vm_compute. reflexivity.
    + intros i seg Hseg.
      destruct i as [|[|[|i]]]; cbn in Hseg; try discriminate;
        injection Hseg as <-; (split_and!; [by vm_compute|by vm_compute|]);
        eexists; reflexivity.
  - intros Hok.
    assert (Hworld : canonical_world fresh_world)
      by (by apply (bool_decide_unpack _); vm_compute).
    destruct (proj1 (loop_returns_normally_iff counting_tts three_segments
                       "/out" fresh_world Hworld eq_refl) Hok
                    0 ("a", "first") eq_refl) as (_ & Hdir & _).
    revert Hdir. by vm_compute.
Defined.

(** X9 — a run that cannot fail.  For a batch whose output paths are
    canonical, run on a disk: when no output path is a directory already,
    [os.makedirs] succeeds and the service answers every call of the run
    with a complete stream, then [main] returns normally. *)
Theorem main_returns_normally tts segs output_dir w :
  canonical_world w →
  well_formed_batch output_dir segs = true →
  (∀ seg, seg ∈ segs → path_of output_dir seg ∉ dirs w) →
  (os_makedirs output_dir true w).1 = inr tt →
  (∀ i seg, segs !! i = Some seg →
     ∃ audio, tts (calls w + i) (request seg.2) = Stream audio) →
  (main_with tts segs output_dir w).1 = inr tt.
Proof.
  intros _ Hwf Hnodir Hprep Htts.
  apply well_formed_batch_spec in Hwf as (Htidy & _ & Hnames).
  rewrite main_with_run, prepare_cases.
  pose proof (os_makedirs_dirs output_dir w) as Hdirs.
  destruct (os_makedirs output_dir true w) as [r w0] eqn:Hmk.
  cbn in Hprep, Hdirs. subst r.
  apply os_makedirs_run in Hmk as (_ & Hc & _ & _ & _ & _ & Hin & _).
  match goal with
  | |- context [run_batch _ _ _ ?v] =>
      assert (Hloop : (run_batch tts segs output_dir v).1 = inr tt)
  end.
  { apply loop_returns_normally_iff_aux. cbn. intros i seg Hseg.
    assert (Hmem : seg ∈ segs) by (apply list_elem_of_lookup; eauto).
    split_and!.
    - intros Hpath. apply Hdirs, elem_of_union in Hpath as [Hpath|Hpath].
      + by apply (Hnodir seg).
      + by apply (output_file_not_prepared output_dir seg.1).
    - unfold path_of. rewrite dirname_tidy; [by apply Hin|done|].
      by destruct (Hnames seg Hmem).
    - rewrite Hc. by apply Htts. }
  destruct (run_batch _ _ _ _) as [[e|[]] w1]; [discriminate|done].
Qed.

(** The three scripts that prepare their directory, on a fresh machine:
    the conditions hold for their lists and directories. *)
Lemma main_returns_normally_witness :
  (Trilogy.main counting_tts fresh_world).1 = inr tt
  ∧ (Fridge.main counting_tts fresh_world).1 = inr tt
  ∧ (ThreeLaws.main counting_tts fresh_world).1 = inr tt.
Proof.
  assert (Hworld : canonical_world fresh_world)
    by (by apply (bool_decide_unpack _); vm_compute).
  split_and!.
  - apply (main_returns_normally counting_tts Trilogy.narrations
             Trilogy.output_dir fresh_world); try done;
      try (vm_compute; reflexivity).
    intros i seg _. eexists. reflexivity.
  - apply (main_returns_normally counting_tts Fridge.narrations
             Fridge.output_dir fresh_world); try done;
      try (vm_compute; reflexivity).
    intros i seg _. eexists. reflexivity.
  - apply (main_returns_normally counting_tts ThreeLaws.narrations
             ThreeLaws.output_dir fresh_world); try done;
      try (vm_compute; reflexivity).
    intros i seg _. eexists. reflexivity.
Defined.

(** ** The scenes and the generators *)

(** X10 — the scenes play what the generators write.  For each of the
    four productions, the clips its scene adds, in the order of
    [construct], are exactly the output paths of its generator's
    [narrations] in list order; hence after a run of the generator that
    returned normally every clip the scene asks for is on disk. *)
Theorem scenes_play_the_generated_files :
  (TrilogyVideo.construct
   = map (path_of Trilogy.output_dir) Trilogy.narrations
   ∧ ∀ tts w w', Trilogy.main tts w = (inr tt, w') →
       Forall (λ clip, is_Some (files w' !! clip)) TrilogyVideo.construct)
  ∧ (FridgeVideo.construct
     = map (path_of Fridge.output_dir) Fridge.narrations
     ∧ ∀ tts w w', Fridge.main tts w = (inr tt, w') →
         Forall (λ clip, is_Some (files w' !! clip)) FridgeVideo.construct)
  ∧ (ThreeLawsVideo.construct
     = map (path_of ThreeLaws.output_dir) ThreeLaws.narrations
     ∧ ∀ tts w w', ThreeLaws.main tts w = (inr tt, w') →
         Forall (λ clip, is_Some (files w' !! clip)) ThreeLawsVideo.construct)
  ∧ (ArchiveVideo.construct
     = map (path_of Archive.output_dir) Archive.narrations
     ∧ ∀ tts w w', Archive.main tts w = (inr tt, w') →
         Forall (λ clip, is_Some (files w' !! clip)) ArchiveVideo.construct).
Proof.
  assert (Hclips : ∀ tts segs output_dir w w',
            runs_to tts segs output_dir w (inr tt) w' →
            Forall (λ clip, is_Some (files w' !! clip))
              (map (path_of output_dir) segs)).
  { intros tts segs output_dir w w' Hrun.
    apply one_file_names in Hrun as (_ & _ & _ & Hdom).
    apply Forall_forall. intros clip Hclip.
    apply elem_of_dom. rewrite Hdom.
    apply elem_of_union_r, elem_of_list_to_set.
    by rewrite <- list_fmap_compose. }
  split_and!;
    try match goal with |- _ = _ => vm_compute; reflexivity end.
  - intros tts w w' Hrun.
    change TrilogyVideo.construct
      with (map (path_of Trilogy.output_dir) Trilogy.narrations).
    apply (Hclips tts _ _ w). by left.
  - intros tts w w' Hrun.
    change FridgeVideo.construct
      with (map (path_of Fridge.output_dir) Fridge.narrations).
    apply (Hclips tts _ _ w). by left.
  - intros tts w w' Hrun.
    change ThreeLawsVideo.construct
      with (map (path_of ThreeLaws.output_dir) ThreeLaws.narrations).
    apply (Hclips tts _ _ w). by left.
  - intros tts w w' Hrun.
    change ArchiveVideo.construct
      with (map (path_of Archive.output_dir) Archive.narrations).
    apply (Hclips tts _ _ w). by right.
Qed.

(** The fridge production on a fresh machine. *)
Lemma scenes_play_the_generated_files_witness :
  Forall (λ clip,
            is_Some (files (Fridge.main counting_tts fresh_world).2 !! clip))
    FridgeVideo.construct.
Proof.
  destruct scenes_play_the_generated_files as (_ & [_ Hfridge] & _).
  apply (Hfridge counting_tts fresh_world).
  assert (Hok : (Fridge.main counting_tts fresh_world).1 = inr tt)
    by (vm_compute; reflexivity).
  rewrite <- Hok. apply surjective_pairing.
Defined.

(** ** Segments do not depend on each other *)

(** With distinct output paths, each segment's file holds the audio of
    that segment. *)
Lemma store_all_nodup output_dir segs audios (m : gmap string Audio) i seg a :
  NoDup (map (path_of output_dir) segs) →
  segs !! i = Some seg → audios !! i = Some a →
  store_all output_dir segs audios m !! path_of output_dir seg = Some a.
Proof.
  intros Hnodup Hseg Ha. apply (store_all_last _ _ _ _ i); [done..|].
  intros j seg' Hij Hseg' Heq.
  assert (i = j); [|lia].
  apply (NoDup_lookup _ i j (path_of output_dir seg) Hnodup).
  - change (map (path_of output_dir) segs) with (path_of output_dir <$> segs).
    by rewrite list_lookup_fmap, Hseg.
  - change (map (path_of output_dir) segs) with (path_of output_dir <$> segs).
    rewrite list_lookup_fmap, Hseg'. cbn. by rewrite Heq.
Qed.

Lemma paths_nodup output_dir (segs : list (string * string)) :
  NoDup segs.*1 → NoDup (map (path_of output_dir) segs).
Proof.
  intros Hnodup.
  change (map (path_of output_dir) segs)
    with ((output_file output_dir ∘ fst) <$> segs).
  rewrite list_fmap_compose. apply NoDup_fmap_2; [|done].
  intros name1 name2. apply output_file_inj.
Qed.

(** X11 — the order of the list does not matter to the result.  For a
    batch whose output paths are canonical, run on a disk, with a service
    whose answers do not depend on the number of earlier calls and
    identifiers that are pairwise distinct: a loop that returns normally
    over a list returns normally over every reordering of it, and leaves
    the same files, the same directories and the same number of service
    calls. *)
Theorem order_does_not_matter tts segs segs' output_dir w w1 :
  canonical_world w →
  well_formed_batch output_dir segs = true →
  stateless tts → NoDup segs.*1 → segs ≡ₚ segs' →
  run_batch tts segs output_dir w = (inr tt, w1) →
  ∃ w2, run_batch tts segs' output_dir w = (inr tt, w2)
        ∧ files w2 = files w1 ∧ dirs w2 = dirs w1 ∧ calls w2 = calls w1.
Proof.
  intros _ _ Hstateless Hnodup Hperm Hrun.
  assert (Hok' : (run_batch tts segs' output_dir w).1 = inr tt).
  { apply loop_returns_normally_iff_aux.
    pose proof (proj1 (loop_returns_normally_iff_aux tts segs output_dir w)) as Hall.
    rewrite Hrun in Hall. specialize (Hall eq_refl).
    intros i seg Hseg.
    assert (Hin : seg ∈ segs).
    { rewrite Hperm. apply list_elem_of_lookup. eauto. }
    apply list_elem_of_lookup in Hin as [j Hj].
    destruct (Hall j seg Hj) as (Hnd & Hdir & audio & Htts).
    split_and!; [done..|]. exists audio.
    by rewrite (Hstateless _ (calls w + j)). }
  destruct (run_batch tts segs' output_dir w) as [r w2] eqn:Hrun'.
  cbn in Hok'. subst r. exists w2. split; [done|].
  apply run_batch_ok in Hrun as (audios & Hlen & Htts & ->).
  apply run_batch_ok in Hrun' as (audios' & Hlen' & Htts' & ->).
  cbn. split_and!; [|done|by rewrite (Permutation_length Hperm)].
  assert (Hnodup' : NoDup segs'.*1) by by rewrite <- Hperm.
  apply map_eq. intros q.
  destruct (decide (q ∈ map (path_of output_dir) segs)) as [Hq|Hq].
  - apply list_elem_of_fmap in Hq as (seg & -> & Hseg).
    assert (Hseg' : seg ∈ segs') by by rewrite <- Hperm.
    apply list_elem_of_lookup in Hseg as [i Hi].
    apply list_elem_of_lookup in Hseg' as [j Hj].
    destruct (lookup_lt_is_Some_2 audios i) as [a Ha].
    { rewrite Hlen. by apply lookup_lt_Some in Hi. }
    destruct (lookup_lt_is_Some_2 audios' j) as [a' Ha'].
    { rewrite Hlen'. by apply lookup_lt_Some in Hj. }
    rewrite (store_all_nodup output_dir segs' audios' _ j seg a'),
      (store_all_nodup output_dir segs audios _ i seg a);
      try done; try by apply paths_nodup.
    pose proof (Htts i seg a Hi Ha) as Hs.
    pose proof (Htts' j seg a' Hj Ha') as Hs'.
    rewrite (Hstateless _ (calls w + i)) in Hs'. congruence.
  - rewrite (store_all_other output_dir segs) by done.
    apply store_all_other.
    intros Hq'. apply Hq.
    apply list_elem_of_fmap in Hq' as (seg & -> & Hseg).
    apply list_elem_of_fmap. exists seg. by rewrite Hperm.
Qed.

(** Three segments, forwards and backwards. *)
Lemma order_does_not_matter_witness :
  files (run_batch length_tts (reverse three_segments) "/out" out_world).2
  = files (run_batch length_tts three_segments "/out" out_world).2.
Proof.
  destruct (order_does_not_matter length_tts three_segments
              (reverse three_segments) "/out" out_world
              (run_batch length_tts three_segments "/out" out_world).2)
    as (w2 & Hrun & Hfiles & _).
  - by apply (bool_decide_unpack _); vm_compute.
  - vm_compute. reflexivity.
  - intros n m req. reflexivity.
  - by apply (bool_decide_unpack _); vm_compute.
  - symmetry. apply reverse_Permutation.
  - vm_compute. reflexivity.
  - by rewrite Hrun.
Defined.

(** ** Productions do not disturb each other *)

Lemma split_at_last {A : Type} (x : A) (l1 l2 r1 r2 : list A) :
  x ∉ r1 → x ∉ r2 → l1 ++ x :: r1 = l2 ++ x :: r2 → l1 = l2 ∧ r1 = r2.
Proof.
  intros H1 H2. revert l2.
  induction l1 as [|a l1 IH]; intros [|b l2] Heq; cbn in Heq.
  - by injection Heq as ->.
  - injection Heq as -> ->. destruct H1.
    apply elem_of_app. right. by left.
  - injection Heq as -> <-. destruct H2.
    apply elem_of_app. right. by left.
  - injection Heq as -> Heq. destruct (IH l2 Heq) as [-> ->]. done.
Qed.

Lemma no_separator_not_elem (s : string) :
  has_separator s = false → slash ∉ String.list_ascii_of_string s.
Proof.
  unfold has_separator.
  induction (String.list_ascii_of_string s) as [|c l IH]; cbn.
  - intros _ Hin. by apply elem_of_nil in Hin.
  - intros Hnone. apply orb_false_iff in Hnone as [Hc Hl].
    intros [Heq|Hin]%elem_of_cons; [|by apply IH].
    unfold is_slash in Hc. by rewrite bool_decide_eq_true_2 in Hc.
Qed.

(** With identifiers free of separators, an output path determines both
    its directory and its identifier. *)
Lemma output_file_split dir1 name1 dir2 name2 :
  has_separator name1 = false → has_separator name2 = false →
  output_file dir1 name1 = output_file dir2 name2 →
  dir1 = dir2 ∧ name1 = name2.
Proof.
  intros Hn1 Hn2 Heq. unfold output_file in Heq.
  assert (Hdir : dir1 = dir2 ∧ name1 +:+ ".mp3" = name2 +:+ ".mp3").
  { apply (f_equal String.list_ascii_of_string) in Heq.
    rewrite !(chars_append dir1), !(chars_append dir2),
      !(chars_append "/") in Heq.
    change (String.list_ascii_of_string "/") with [slash] in Heq.
    cbn [app] in Heq.
    apply split_at_last in Heq as [Hd Hn].
    - split; by apply chars_inj.
    - apply no_separator_not_elem. by rewrite has_separator_append, Hn1.
    - apply no_separator_not_elem. by rewrite has_separator_append, Hn2. }
  destruct Hdir as [-> Hname]. split; [done|]. by apply append_inj_r in Hname.
Qed.

(** X12 — productions in different directories do not disturb each
    other.  For a batch whose output paths are canonical, run on a disk:
    a run of a script, whatever its outcome, leaves every output file of
    a production with another canonical directory (plain identifier)
    exactly as it was, even when both productions use the same
    identifiers. *)
Theorem productions_do_not_interfere tts segs output_dir w r w'
    other_dir name :
  canonical_world w →
  well_formed_batch output_dir segs = true →
  canonical other_dir = true → plain_identifier name = true →
  other_dir ≠ output_dir →
  runs_to tts segs output_dir w r w' →
  files w' !! output_file other_dir name = files w !! output_file other_dir name.
Proof.
  intros _ Hwf _ Hname Hdir Hrun.
  apply well_formed_batch_spec in Hwf as (_ & _ & Hsegs).
  assert (Hsep : has_separator name = false).
  { unfold plain_identifier in Hname.
    apply andb_true_iff in Hname as [Hname _].
    apply andb_true_iff in Hname as [Hname _]. by apply negb_true_iff. }
  apply run_other_files in Hrun as [_ Hother]. apply Hother.
  intros Hin. apply list_elem_of_fmap in Hin as (seg & Heq & Hseg).
  apply output_file_split in Heq as [Hd _]; [done|done|].
  by destruct (Hsegs seg Hseg).
Qed.

(** The trilogy and the fridge production both have a clip [01_intro]:
    generating the fridge narration leaves the trilogy's clip as it is. *)
Lemma productions_do_not_interfere_witness :
  let w := (Trilogy.main counting_tts fresh_world).2 in
  files (Fridge.main counting_tts w).2
    !! "/home/coder/project/manim_the_trilogy/audio/01_intro.mp3"
  = files w !! "/home/coder/project/manim_the_trilogy/audio/01_intro.mp3".
Proof.
  intros w.
  apply (productions_do_not_interfere counting_tts Fridge.narrations
           Fridge.output_dir w (Fridge.main counting_tts w).1
           (Fridge.main counting_tts w).2 Trilogy.output_dir "01_intro").
  - by apply (bool_decide_unpack _); vm_compute.
  - vm_compute. reflexivity.
  - reflexivity.
  - reflexivity.
  - discriminate.
  - left. apply surjective_pairing.
Defined.
